(** * The ledger engines of AHalic/Blockchain

    The repository holds two variants of one educational ledger:
    - [bitcoin.py]: blocks carry a nonce, a compact target ([nbits]) and the
      list of pending transactions; [proof_of_work] builds, mines and appends
      a block;
    - [blockchain.py]: blocks carry a [proof]; [proof_of_work] searches the
      proof and the route [mine_block] appends the block.

    Both are embedded below, function by function.  Blocks are Python
    dictionaries and are modelled as finite maps from keys to values; the
    list of pending transactions is one shared list object and lives in a
    store; [hashlib.sha256] is a parameter of the development, and is also
    implemented ([SHA256.digest]) so that the functions can be run on
    concrete ledgers. *)

From Stdlib Require Import ZArith String Ascii List Lia HexadecimalString.
From Stdlib Require Import HexadecimalN.
From Stdlib Require Import Init.Byte.
From stdpp Require Import base gmap strings list vector pretty sorting.
Import ListNotations.

Open Scope string_scope.
Open Scope list_scope.
Open Scope Z_scope.

(** ** Python values that the code raises and returns *)

Inductive exn : Set :=
  | KeyError (key : string)
  | IndexError
  | TypeError
  | ValueError.

Inductive res (A : Type) : Type :=
  | Ok (a : A)
  | Raise (e : exn).
Arguments Ok {A} a.
Arguments Raise {A} e.

#[global] Instance res_ret : MRet res := λ A a, Ok a.
#[global] Instance res_bind : MBind res :=
  λ A B f m, match m with Ok a => f a | Raise e => Raise e end.

(** [d[key]] on a dictionary. *)
Definition getitem {V : Type} (d : gmap string V) (key : string) : res V :=
  match d !! key with
  | Some v => Ok v
  | None => Raise (KeyError key)
  end.

(** [1 << k] *)
Definition lshift1 (k : Z) : res Z :=
  if k <? 0 then Raise ValueError else Ok (Z.shiftl 1 k).

(** ** Hexadecimal text *)

Definition hex_digit (n : N) : ascii :=
  ascii_of_N (if (n <? 10)%N then 48 + n else 87 + n)%N.

Definition hex_of_byte (b : byte) : string :=
  String (hex_digit (Byte.to_N b / 16))
    (String (hex_digit (Byte.to_N b mod 16)) "").

Definition hex (bs : list byte) : string :=
  fold_right (λ b s, hex_of_byte b +:+ s) "" bs.

(** A SHA-256 digest is 32 bytes; [hexdigest] renders it as 64 lowercase
    hexadecimal characters. *)
Abbreviation digest := (vec byte 32).

Definition hexdigest (d : digest) : string := hex (vec_to_list d).

(** The digest as a big-endian unsigned integer. *)
Definition be_value (bs : list byte) (acc : Z) : Z :=
  fold_left (λ a b, a * 256 + Z.of_N (Byte.to_N b)) bs acc.

Definition digest_value (d : digest) : Z := be_value (vec_to_list d) 0.

Definition hex_value (c : ascii) : option Z :=
  let n := Z.of_N (N_of_ascii c) in
  if (48 <=? n) && (n <=? 57) then Some (n - 48)
  else if (97 <=? n) && (n <=? 102) then Some (n - 87)
  else if (65 <=? n) && (n <=? 70) then Some (n - 55)
  else None.

Fixpoint int16_digits (acc : Z) (s : string) : res Z :=
  match s with
  | "" => Ok acc
  | String c s' =>
      match hex_value c with
      | Some d => int16_digits (acc * 16 + d) s'
      | None => Raise ValueError
      end
  end.

(** [int(s, 16)] on the texts the code passes to it: hexadecimal digits with
    an optional minus sign.  (Python also accepts blanks, a [0x] prefix and
    underscores; neither [hexdigest] nor ['%064x'] produces them.) *)
Definition int16 (s : string) : res Z :=
  match s with
  | "" => Raise ValueError
  | String "-" "" => Raise ValueError
  | String "-" s' => n ← int16_digits 0 s'; Ok (- n)
  | _ => int16_digits 0 s
  end.

Definition zfill (width : nat) (s : string) : string :=
  string_of_list_ascii (replicate (width - String.length s) "0"%char) +:+ s.

Definition hex_of_N (n : N) : string :=
  NilZero.string_of_uint (N.to_hex_uint n).

(** ['%064x' % n] *)
Definition format_064x (n : Z) : string :=
  if n <? 0 then "-" +:+ zfill 63 (hex_of_N (Z.to_N (- n)))
  else zfill 64 (hex_of_N (Z.to_N n)).

(** The number that a sequence of hexadecimal digits denotes, after [acc]. *)
Fixpoint uint_value (d : Hexadecimal.uint) (acc : Z) : Z :=
  match d with
  | Hexadecimal.Nil => acc
  | Hexadecimal.D0 d => uint_value d (acc * 16)
  | Hexadecimal.D1 d => uint_value d (acc * 16 + 1)
  | Hexadecimal.D2 d => uint_value d (acc * 16 + 2)
  | Hexadecimal.D3 d => uint_value d (acc * 16 + 3)
  | Hexadecimal.D4 d => uint_value d (acc * 16 + 4)
  | Hexadecimal.D5 d => uint_value d (acc * 16 + 5)
  | Hexadecimal.D6 d => uint_value d (acc * 16 + 6)
  | Hexadecimal.D7 d => uint_value d (acc * 16 + 7)
  | Hexadecimal.D8 d => uint_value d (acc * 16 + 8)
  | Hexadecimal.D9 d => uint_value d (acc * 16 + 9)
  | Hexadecimal.Da d => uint_value d (acc * 16 + 10)
  | Hexadecimal.Db d => uint_value d (acc * 16 + 11)
  | Hexadecimal.Dc d => uint_value d (acc * 16 + 12)
  | Hexadecimal.Dd d => uint_value d (acc * 16 + 13)
  | Hexadecimal.De d => uint_value d (acc * 16 + 14)
  | Hexadecimal.Df d => uint_value d (acc * 16 + 15)
  end.

(** [s[:7]] *)
Definition prefix7 (s : string) : string := String.substring 0 7 s.

(** ** SHA-256 (FIPS 180-4), on the bytes of a text *)

Module SHA256.

Definition primes : list Z :=
  [2; 3; 5; 7; 11; 13; 17; 19; 23; 29; 31; 37; 41; 43; 47; 53;
   59; 61; 67; 71; 73; 79; 83; 89; 97; 101; 103; 107; 109; 113; 127; 131;
   137; 139; 149; 151; 157; 163; 167; 173; 179; 181; 191; 193; 197; 199;
   211; 223; 227; 229; 233; 239; 241; 251; 257; 263; 269; 271; 277; 281;
   283; 293; 307; 311].

Definition word (x : Z) : Z := x mod 2 ^ 32.

(** Integer cube root, one bit at a time. *)
Fixpoint icbrt (bits : nat) (x r : Z) : Z :=
  match bits with
  | O => r
  | S bits' =>
      let c := r + 2 ^ Z.of_nat bits' in
      if c * c * c <=? x then icbrt bits' x c else icbrt bits' x r
  end.

(** Round constants: the first 32 bits of the fractional parts of the cube
    roots of the first 64 primes. *)
Definition K : list Z :=
  Eval vm_compute in map (λ p, word (icbrt 40 (p * 2 ^ 96) 0)) primes.

(** Initial state: the same for the square roots of the first 8 primes. *)
Definition H0 : list Z :=
  Eval vm_compute in map (λ p, word (Z.sqrt (p * 2 ^ 64))) (take 8 primes).

Definition rotr (n x : Z) : Z :=
  Z.lor (Z.shiftr x n) (word (Z.shiftl x (32 - n))).
Definition Ch (x y z : Z) : Z :=
  Z.lxor (Z.land x y) (Z.land (Z.lnot x) z).
Definition Maj (x y z : Z) : Z :=
  Z.lxor (Z.lxor (Z.land x y) (Z.land x z)) (Z.land y z).
Definition Sigma0 (x : Z) : Z :=
  Z.lxor (Z.lxor (rotr 2 x) (rotr 13 x)) (rotr 22 x).
Definition Sigma1 (x : Z) : Z :=
  Z.lxor (Z.lxor (rotr 6 x) (rotr 11 x)) (rotr 25 x).
Definition sigma0 (x : Z) : Z :=
  Z.lxor (Z.lxor (rotr 7 x) (rotr 18 x)) (Z.shiftr x 3).
Definition sigma1 (x : Z) : Z :=
  Z.lxor (Z.lxor (rotr 17 x) (rotr 19 x)) (Z.shiftr x 10).

Definition at_ (l : list Z) (i : nat) : Z := nth i l 0.

(** The message schedule, produced from a sliding window of 16 words. *)
Fixpoint schedule (n : nat) (win : list Z) : list Z :=
  match n with
  | O => []
  | S n' =>
      let w := word (sigma1 (at_ win 14) + at_ win 9
                     + sigma0 (at_ win 1) + at_ win 0) in
      at_ win 0 :: schedule n' (tail win ++ [w])
  end.

Definition round (s : list Z) (kw : Z * Z) : list Z :=
  match s with
  | [a; b; c; d; e; f; g; h] =>
      let t1 := h + Sigma1 e + Ch e f g + kw.1 + kw.2 in
      let t2 := Sigma0 a + Maj a b c in
      [word (t1 + t2); a; b; c; word (d + t1); e; f; g]
  | _ => s
  end.

Definition be_word (bs : list Z) : Z :=
  fold_left (λ acc b, acc * 256 + b) bs 0.

Fixpoint words (n : nat) (bs : list Z) : list Z :=
  match n with
  | O => []
  | S n' => be_word (take 4 bs) :: words n' (drop 4 bs)
  end.

Definition compress (h : list Z) (chunk : list Z) : list Z :=
  let w := schedule 64 (words 16 chunk) in
  zip_with (λ x y, word (x + y)) h (fold_left round (zip K w) h).

Fixpoint chunks (n : nat) (h : list Z) (bs : list Z) : list Z :=
  match n with
  | O => h
  | S n' => chunks n' (compress h (take 64 bs)) (drop 64 bs)
  end.

Definition be_bytes (w : nat) (x : Z) : list Z :=
  map (λ i, (x / 256 ^ Z.of_nat i) mod 256) (rev (seq 0 w)).

Definition pad (bs : list Z) : list Z :=
  let len := Z.of_nat (length bs) in
  let k := Z.to_nat ((55 - len) mod 64) in
  bs ++ [128] ++ replicate k 0 ++ be_bytes 8 (8 * len).

Definition byte_of_Z (x : Z) : byte :=
  byte_of_ascii (ascii_of_N (Z.to_N x)).

Definition digest_bytes (msg : string) : list byte :=
  let bs := pad (map (λ c, Z.of_N (N_of_ascii c)) (list_ascii_of_string msg)) in
  map byte_of_Z (concat (map (be_bytes 4) (chunks (length bs / 64) H0 bs))).

(** [hashlib.sha256(msg.encode()).digest()] *)
Definition digest (msg : string) : digest :=
  let bs := digest_bytes msg in
  fun_to_vec (λ i : fin 32, nth (fin_to_nat i) bs x00).

End SHA256.

(** ** bitcoin.py *)

Module bitcoin.

(** Addresses of list objects. *)
Abbreviation loc := positive.

(** What a block holds under a key: an integer, a text, or (a reference
    to) a list of texts. *)
Inductive val : Type :=
  | VInt (n : Z)
  | VStr (s : string)
  | VList (l : loc).

#[global] Instance val_eq_dec : EqDecision val.
Proof. solve_decision. Defined.

Abbreviation dict := (gmap string val).

(** An instance of [class Blockchain], together with the list objects it
    can reach: [self.chain] is only ever appended to and is kept as a
    value; [self.current_transactions] is the address of the list object
    that every block created from it shares. *)
Record Blockchain : Type := mkBlockchain {
  heap : gmap loc (list string);
  chain : list dict;
  current_transactions : loc
}.

Definition deref (self : Blockchain) (l : loc) : list string :=
  default [] (heap self !! l).

Definition set_chain (self : Blockchain) (c : list dict) : Blockchain :=
  {| heap := heap self; chain := c;
     current_transactions := current_transactions self |}.

(** [v ** 2] *)
Definition pow2 (v : val) : res Z :=
  match v with
  | VInt n => Ok (n ^ 2)
  | _ => Raise TypeError
  end.

Section code.

(** [hashlib.sha256(s.encode()).digest()] and [repr(s)] of a text. *)
Variable sha256 : string → digest.
Variable repr : string → string.

(** [str(l)] of a list of texts. *)
Definition str_list (l : list string) : string :=
  "[" +:+ String.concat ", " (map repr l) +:+ "]".

(** [str(v)], which is also how an f-string renders [v]. *)
Definition str (self : Blockchain) (v : val) : string :=
  match v with
  | VInt n => pretty n
  | VStr s => s
  | VList l => str_list (deref self l)
  end.

(** [now] is what [str(datetime.datetime.now())] returns during the call. *)
Definition create_block (self : Blockchain) (now : string)
    (nonce : Z) (previous_hash : string) : dict :=
  {[ "index" := VInt (Z.of_nat (length (chain self)) + 1);
     "timestamp" := VStr now;
     "nbits" := VInt 486604799;
     "nonce" := VInt nonce;
     "previous_hash" := VStr previous_hash;
     "transactions" := VList (current_transactions self);
     "transactions_hash" :=
       VStr (hexdigest (sha256
         (str_list (deref self (current_transactions self))))) ]}.

(** [__init__]: the first list object of the process is the pool. *)
Definition init (now : string) : Blockchain :=
  let self := {| heap := {[ 1%positive := [] ]}; chain := [];
                 current_transactions := 1%positive |} in
  set_chain self (chain self ++ [create_block self now 1 "0"]).

Definition get_previous_block (self : Blockchain) : res dict :=
  match last (chain self) with
  | Some last_block => Ok last_block
  | None => Raise IndexError
  end.

Definition calculate_target (bits : val) : res Z :=
  match bits with
  | VInt bits =>
      let exp := Z.shiftr bits 24 in
      let mant := Z.land bits 16777215 in
      one ← lshift1 (8 * (exp - 3));
      let target_hexstr := format_064x (mant * one) in
      int16 target_hexstr
  | _ => Raise TypeError
  end.

Definition hash (self : Blockchain) (block : dict) : res string :=
  timestamp ← getitem block "timestamp";
  previous_hash ← getitem block "previous_hash";
  transactions_hash ← getitem block "transactions_hash";
  nonce ← getitem block "nonce";
  Ok (hexdigest (sha256 (str self timestamp +:+ str self previous_hash
                         +:+ str self transactions_hash
                         +:+ str self nonce))).

(** [block['nonce'] += 1] *)
Definition incr_nonce (block : dict) : res dict :=
  nonce ← getitem block "nonce";
  match nonce with
  | VInt n => Ok (<["nonce" := VInt (n + 1)]> block)
  | _ => Raise TypeError
  end.

(** The [while check_nonce is False] loop of [proof_of_work]; [None]
    when the search is still running after [fuel] rounds. *)
Fixpoint proof_of_work_loop (fuel : nat) (self : Blockchain)
    (target : Z) (block : dict) : option (res dict) :=
  match fuel with
  | O => None
  | S fuel' =>
      match (hash_operation ← hash self block; int16 hash_operation) with
      | Raise e => Some (Raise e)
      | Ok n =>
          if n <? target then Some (Ok block)
          else match incr_nonce block with
               | Raise e => Some (Raise e)
               | Ok block' => proof_of_work_loop fuel' self target block'
               end
      end
  end.

Definition proof_of_work (fuel : nat) (now : string) (self : Blockchain)
    : option (res (dict * Blockchain)) :=
  match (previous ← get_previous_block self; hash self previous) with
  | Raise e => Some (Raise e)
  | Ok previous_hash =>
      let block := create_block self now 1 previous_hash in
      match (bits ← getitem block "nbits"; calculate_target bits) with
      | Raise e => Some (Raise e)
      | Ok target =>
          match proof_of_work_loop fuel self target block with
          | None => None
          | Some (Raise e) => Some (Raise e)
          | Some (Ok block) =>
              Some (Ok (block, set_chain self (chain self ++ [block])))
          end
      end
  end.

(** The body of the [while block_index < len(chain)] loop runs once for
    each block of [chain[1:]], in order; [rest] is [chain[block_index:]]. *)
Fixpoint is_chain_valid_loop (self : Blockchain) (previous_block : dict)
    (rest : list dict) : res bool :=
  match rest with
  | [] => Ok true
  | block :: rest' =>
      previous_hash ← getitem block "previous_hash";
      h ← hash self previous_block;
      if decide (previous_hash ≠ VStr h) then Ok false else
      previous_proof ← getitem previous_block "proof";
      current_proof ← getitem block "proof";
      c ← pow2 current_proof;
      p ← pow2 previous_proof;
      let hash_operation := hexdigest (sha256 (pretty (c - p))) in
      if decide (prefix7 hash_operation ≠ "0000000") then Ok false else
      is_chain_valid_loop self block rest'
  end.

Definition is_chain_valid (self : Blockchain) (chain : list dict)
    : res bool :=
  match chain with
  | [] => Raise IndexError
  | previous_block :: rest => is_chain_valid_loop self previous_block rest
  end.

(** The route [/mine_block]: the response built from the mined block. *)
Definition mine_block (fuel : nat) (now : string) (self : Blockchain)
    : option (res (gmap string val * Blockchain)) :=
  match proof_of_work fuel now self with
  | None => None
  | Some (Raise e) => Some (Raise e)
  | Some (Ok (block, self')) =>
      Some (index ← getitem block "index";
            timestamp ← getitem block "timestamp";
            nonce ← getitem block "nonce";
            previous_hash ← getitem block "previous_hash";
            Ok ({[ "message" := VStr "Block mined!";
                   "index" := index; "timestamp" := timestamp;
                   "nonce" := nonce;
                   "previous_hash" := previous_hash ]}, self'))
  end.

(** The route [/get_chain]. *)
Definition get_chain (self : Blockchain) : list dict * Z :=
  (chain self, Z.of_nat (length (chain self))).

(** The route [/new_transaction/<tr_str>]:
    [blockchain.current_transactions.append(tr_str)]. *)
Definition new_transaction (tr_str : string) (self : Blockchain)
    : Blockchain :=
  {| heap := <[ current_transactions self :=
                  deref self (current_transactions self) ++ [tr_str] ]>
               (heap self);
     chain := chain self;
     current_transactions := current_transactions self |}.

(** The list a block shows under ['transactions'], and the pool. *)
Definition transactions (self : Blockchain) (block : dict)
    : option (list string) :=
  match block !! "transactions" with
  | Some (VList l) => heap self !! l
  | _ => None
  end.

Definition pool (self : Blockchain) : list string :=
  deref self (current_transactions self).

(** The number the search compares with the target, and the test. *)
Definition header_value (self : Blockchain) (block : dict) : res Z :=
  hash_operation ← hash self block; int16 hash_operation.

Definition meets_target (self : Blockchain) (target : Z) (block : dict)
    : Prop :=
  ∃ n, header_value self block = Ok n ∧ n < target.

Definition with_nonce (block : dict) (n : Z) : dict :=
  <["nonce" := VInt n]> block.

(** The target that [nbits = 486604799] encodes. *)
Definition target : Z := 65535 * 2 ^ 208.

(** The blocks [create_block] builds, whose list of transactions is the
    object at [l]. *)
Definition sealed (l : loc) (block : dict) : Prop :=
  ∃ (i : Z) (ts : string) (n : Z) (ph th : string),
    block = {[ "index" := VInt i; "timestamp" := VStr ts;
               "nbits" := VInt 486604799; "nonce" := VInt n;
               "previous_hash" := VStr ph; "transactions" := VList l;
               "transactions_hash" := VStr th ]}.

(** The ledgers of a process: constructed once, then transactions are
    submitted and blocks mined, in any order. *)
Inductive reachable : Blockchain → Prop :=
  | reachable_init (now : string) :
      reachable (init now)
  | reachable_new_transaction (self : Blockchain) (tr_str : string) :
      reachable self → reachable (new_transaction tr_str self)
  | reachable_proof_of_work (self self' : Blockchain) (fuel : nat)
        (now : string) (block : dict) :
      reachable self →
      proof_of_work fuel now self = Some (Ok (block, self')) →
      reachable self'.

(** The shape of the ledgers of a process: the pool is allocated, the
    chain starts with a first block, every block is a sealed one that
    shares the pool, is numbered by its position and names the hash of
    the block before it. *)
Record ledger_inv (self : Blockchain) : Prop := {
  inv_pool : is_Some (heap self !! current_transactions self);
  inv_first : chain self ≠ [];
  inv_sealed : Forall (sealed (current_transactions self)) (chain self);
  inv_index : ∀ (i : nat) (block : dict),
    chain self !! i = Some block →
    block !! "index" = Some (VInt (Z.of_nat i + 1));
  inv_linked : ∀ (i : nat) (previous block : dict),
    chain self !! i = Some previous →
    chain self !! S i = Some block →
    ∃ h, hash self previous = Ok h ∧
         block !! "previous_hash" = Some (VStr h)
}.

End code.

End bitcoin.

(** ** blockchain.py *)

Module blockchain.

(** What a block holds under a key: an integer or a text. *)
Inductive val : Type :=
  | VInt (n : Z)
  | VStr (s : string).

#[global] Instance val_eq_dec : EqDecision val.
Proof. solve_decision. Defined.

Abbreviation dict := (gmap string val).

Record Blockchain : Type := mkBlockchain { chain : list dict }.

(** [v ** 2] *)
Definition pow2 (v : val) : res Z :=
  match v with
  | VInt n => Ok (n ^ 2)
  | VStr _ => Raise TypeError
  end.

Section code.

(** [hashlib.sha256(s.encode()).digest()] and
    [json.dumps(block, sort_keys=True)]. *)
Variable sha256 : string → digest.
Variable json_dumps : dict → string.

Definition create_blockchain (self : Blockchain) (now : string)
    (proof : Z) (previous_hash : string) : dict * Blockchain :=
  let block : dict :=
    {[ "index" := VInt (Z.of_nat (length (chain self)) + 1);
       "timestamp" := VStr now;
       "proof" := VInt proof;
       "previous_hash" := VStr previous_hash ]} in
  (block, {| chain := chain self ++ [block] |}).

(** [__init__] *)
Definition init (now : string) : Blockchain :=
  (create_blockchain {| chain := [] |} now 1 "0").2.

Definition get_previous_block (self : Blockchain) : res dict :=
  match last (chain self) with
  | Some last_block => Ok last_block
  | None => Raise IndexError
  end.

(** The [while check_proof is False] loop of [proof_of_work]; [None]
    when the search is still running after [fuel] rounds. *)
Fixpoint proof_of_work_loop (fuel : nat) (previous_proof : val)
    (new_proof : Z) : option (res Z) :=
  match fuel with
  | O => None
  | S fuel' =>
      match pow2 previous_proof with
      | Raise e => Some (Raise e)
      | Ok p =>
          let hash_operation :=
            hexdigest (sha256 (pretty (new_proof ^ 2 - p))) in
          if decide (prefix7 hash_operation = "0000000")
          then Some (Ok new_proof)
          else proof_of_work_loop fuel' previous_proof (new_proof + 1)
      end
  end.

Definition proof_of_work (fuel : nat) (previous_proof : val)
    : option (res Z) :=
  proof_of_work_loop fuel previous_proof 1.

Definition hash (block : dict) : string :=
  let encoded_block := json_dumps block in
  hexdigest (sha256 encoded_block).

(** The body of the [while block_index < len(chain)] loop runs once for
    each block of [chain[1:]], in order; [rest] is [chain[block_index:]]. *)
Fixpoint is_chain_valid_loop (previous_block : dict) (rest : list dict)
    : res bool :=
  match rest with
  | [] => Ok true
  | block :: rest' =>
      previous_hash ← getitem block "previous_hash";
      if decide (previous_hash ≠ VStr (hash previous_block)) then Ok false
      else
      previous_proof ← getitem previous_block "proof";
      current_proof ← getitem block "proof";
      c ← pow2 current_proof;
      p ← pow2 previous_proof;
      let hash_operation := hexdigest (sha256 (pretty (c - p))) in
      if decide (prefix7 hash_operation ≠ "0000000") then Ok false else
      is_chain_valid_loop block rest'
  end.

Definition is_chain_valid (chain : list dict) : res bool :=
  match chain with
  | [] => Raise IndexError
  | previous_block :: rest => is_chain_valid_loop previous_block rest
  end.

(** The route [/mine_block]; returns the appended block, from which the
    response copies ['index'], ['timestamp'], ['proof'] and
    ['previous_hash']. *)
Definition mine_block (fuel : nat) (now : string) (self : Blockchain)
    : option (res (dict * Blockchain)) :=
  match (previous_block ← get_previous_block self;
         previous_proof ← getitem previous_block "proof";
         Ok (previous_block, previous_proof)) with
  | Raise e => Some (Raise e)
  | Ok (previous_block, previous_proof) =>
      match proof_of_work fuel previous_proof with
      | None => None
      | Some (Raise e) => Some (Raise e)
      | Some (Ok proof) =>
          let previous_hash := hash previous_block in
          Some (Ok (create_blockchain self now proof previous_hash))
      end
  end.

(** The route [/get_chain]. *)
Definition get_chain (self : Blockchain) : list dict * Z :=
  (chain self, Z.of_nat (length (chain self))).

(** The validator as the specification words it: for each block after
    the first, the hash of the previous block is compared with
    [previous_hash], then the hash of the block itself is tested against
    the difficulty (here the fixed prefix of seven zeros). *)
Definition MeetsTarget (hexdigest : string) : bool :=
  bool_decide (prefix7 hexdigest = "0000000").

Fixpoint Validate_spec_loop (previous : dict) (rest : list dict)
    : res bool :=
  match rest with
  | [] => Ok true
  | block :: rest' =>
      previous_hash ← getitem block "previous_hash";
      if decide (previous_hash ≠ VStr (hash previous)) then Ok false
      else if negb (MeetsTarget (hash block)) then Ok false
      else Validate_spec_loop block rest'
  end.

Definition Validate_spec (chain : list dict) : res bool :=
  match chain with
  | [] => Raise IndexError
  | previous :: rest => Validate_spec_loop previous rest
  end.

(** The puzzle that the search solves and the validator tests, on a proof
    and the previous one:
    [sha256(str(new ** 2 - previous ** 2)).hexdigest()[:7] == '0000000']. *)
Definition solves (new_proof previous_proof : Z) : Prop :=
  prefix7 (hexdigest (sha256 (pretty (new_proof ^ 2 - previous_proof ^ 2))))
  = "0000000".

#[global] Instance solves_dec new_proof previous_proof :
  Decision (solves new_proof previous_proof).
Proof. unfold solves. apply _. Defined.

(** The two checks of [is_chain_valid] on a block and its predecessor. *)
Definition linked (previous block : dict) : Prop :=
  block !! "previous_hash" = Some (VStr (hash previous)).

Definition proved (previous block : dict) : Prop :=
  ∃ p c : Z, previous !! "proof" = Some (VInt p) ∧
             block !! "proof" = Some (VInt c) ∧
             solves c p.

(** The ledgers of a process: constructed once, then blocks are mined. *)
Inductive reachable : Blockchain → Prop :=
  | reachable_init (now : string) :
      reachable (init now)
  | reachable_mine_block (self self' : Blockchain) (fuel : nat)
        (now : string) (block : dict) :
      reachable self →
      mine_block fuel now self = Some (Ok (block, self')) →
      reachable self'.

(** A block that [is_chain_valid] turns down: its [previous_hash] is not
    the hash of its predecessor, or it is and the two proofs do not
    solve the puzzle. *)
Definition rejected (previous block : dict) : Prop :=
  (∃ v, block !! "previous_hash" = Some v ∧ v ≠ VStr (hash previous)) ∨
  (linked previous block ∧
   ∃ p c : Z, previous !! "proof" = Some (VInt p) ∧
              block !! "proof" = Some (VInt c) ∧
              ¬ solves c p).

(** The shape of the ledgers of a process. *)
Record ledger_inv (self : Blockchain) : Prop := {
  inv_first : chain self ≠ [];
  inv_proof : Forall (λ block : dict,
                ∃ p : Z, block !! "proof" = Some (VInt p)) (chain self);
  inv_index : ∀ (i : nat) (block : dict),
    chain self !! i = Some block →
    block !! "index" = Some (VInt (Z.of_nat i + 1));
  inv_checked : ∀ (i : nat) (previous block : dict),
    chain self !! i = Some previous →
    chain self !! S i = Some block →
    linked previous block ∧ proved previous block
}.

End code.

End blockchain.

(** ** [repr] and [json.dumps] on ASCII text

    The properties below hold whatever [repr] and [json.dumps] return; the
    two functions are written out for texts of ASCII characters, on which the
    concrete ledgers at the end of the file are built. *)

Definition quote : ascii := "039"%char.
Definition dquote : ascii := "034"%char.
Definition backslash : ascii := "092"%char.

Definition hex2 (n : N) : string :=
  String (hex_digit (n / 16)) (String (hex_digit (n mod 16)) "").

Definition repr_char (q c : ascii) : string :=
  let n := N_of_ascii c in
  if (c =? q)%char || (c =? backslash)%char then String backslash (String c "")
  else if (n =? 9)%N then String backslash "t"
  else if (n =? 10)%N then String backslash "n"
  else if (n =? 13)%N then String backslash "r"
  else if (n <? 32)%N || (n =? 127)%N then String backslash ("x" +:+ hex2 n)
  else String c "".

(** [repr(s)]: double quotes are chosen only when [s] has a single quote
    and no double quote. *)
Definition repr_ascii (s : string) : string :=
  let cs := list_ascii_of_string s in
  let q := if existsb (Ascii.eqb quote) cs && negb (existsb (Ascii.eqb dquote) cs)
           then dquote else quote in
  String q (String.concat "" (map (repr_char q) cs) +:+ String q "").

Definition json_char (c : ascii) : string :=
  let n := N_of_ascii c in
  if (c =? dquote)%char || (c =? backslash)%char then String backslash (String c "")
  else if (n =? 10)%N then String backslash "n"
  else if (n =? 13)%N then String backslash "r"
  else if (n =? 9)%N then String backslash "t"
  else if (n =? 8)%N then String backslash "b"
  else if (n =? 12)%N then String backslash "f"
  else if (n <? 32)%N || (126 <? n)%N then String backslash ("u00" +:+ hex2 n)
  else String c "".

Definition json_str (s : string) : string :=
  String dquote
    (String.concat "" (map json_char (list_ascii_of_string s)) +:+ String dquote "").

Definition json_val (v : blockchain.val) : string :=
  match v with
  | blockchain.VInt n => pretty n
  | blockchain.VStr s => json_str s
  end.

Definition key_le (a b : string * blockchain.val) : Prop :=
  String.leb a.1 b.1 = true.

#[global] Instance key_le_dec a b : Decision (key_le a b).
Proof. unfold key_le. apply _. Defined.

(** [json.dumps(block, sort_keys=True)] *)
Definition dumps_sorted (block : blockchain.dict) : string :=
  "{" +:+ String.concat ", "
            (map (λ kv, json_str kv.1 +:+ ": " +:+ json_val kv.2)
                 (merge_sort key_le (map_to_list block)))
      +:+ "}".

(** ** Concrete ledgers, under SHA-256 *)

Module run.

(** Two values of [str(datetime.datetime.now())]: when the ledger is
    constructed, and when the block is mined.  At [t1] the search of
    bitcoin.py meets the target at its third nonce. *)
Definition t0 : string := "2021-06-14 10:00:00.000001".
Definition t1 : string := "2021-06-14 11:08:01.604749".

(** bitcoin.py: a fresh ledger, then [/new_transaction/a], then a block
    mined at [t1]. *)
Definition ledger0 : bitcoin.Blockchain :=
  bitcoin.init SHA256.digest repr_ascii t0.

Definition ledger1 : bitcoin.Blockchain :=
  bitcoin.new_transaction "a" ledger0.

Definition block2 : bitcoin.dict :=
  {[ "index" := bitcoin.VInt 2;
     "timestamp" := bitcoin.VStr t1;
     "nbits" := bitcoin.VInt 486604799;
     "nonce" := bitcoin.VInt 3;
     "previous_hash" := bitcoin.VStr
       "a8d704db6e98ee8cf7a4764104db4678b29cf82a5ea85e77f4ac2573b8970f94";
     "transactions" := bitcoin.VList 1%positive;
     "transactions_hash" := bitcoin.VStr
       "a326618a43c0b61aff497f4d8a82f4857fe952c5fae156ab94facf4adbf7dcb4" ]}.

Definition ledger2 : bitcoin.Blockchain :=
  bitcoin.set_chain ledger1 (bitcoin.chain ledger1 ++ [block2]).

(** blockchain.py: the first block and a second block whose proof solves
    the puzzle against the first one: [sha256(str(203748674 ** 2 - 1 ** 2))]
    starts with seven zeros. *)
Definition genesis : blockchain.dict :=
  {[ "index" := blockchain.VInt 1;
     "timestamp" := blockchain.VStr t0;
     "proof" := blockchain.VInt 1;
     "previous_hash" := blockchain.VStr "0" ]}.

Definition second : blockchain.dict :=
  {[ "index" := blockchain.VInt 2;
     "timestamp" := blockchain.VStr t1;
     "proof" := blockchain.VInt 203748674;
     "previous_hash" := blockchain.VStr
       "1700739e10aab3c65a833674dd4f67789dcdd33d282ca1b84cf27fe585a4a4c0" ]}.

(** bitcoin.py's validator reads ['proof']: two blocks that carry one. *)
Definition proved1 : bitcoin.dict :=
  <["proof" := bitcoin.VInt 1]> (hd ∅ (bitcoin.chain ledger0)).

Definition proved2 : bitcoin.dict :=
  <["proof" := bitcoin.VInt 203748674]> block2.

End run.

Module further.

(** blockchain.py: a ledger whose only block carries the proof 184998985.
    Against it the proofs 1 and 2 fail and 3 solves the puzzle:
    [sha256(str(3 ** 2 - 184998985 ** 2))] starts with seven zeros. *)
Definition first : blockchain.dict :=
  {[ "index" := blockchain.VInt 1;
     "timestamp" := blockchain.VStr run.t0;
     "proof" := blockchain.VInt 184998985;
     "previous_hash" := blockchain.VStr "0" ]}.

Definition ledger : blockchain.Blockchain := {| blockchain.chain := [first] |}.

Definition mined : blockchain.dict :=
  {[ "index" := blockchain.VInt 2;
     "timestamp" := blockchain.VStr run.t1;
     "proof" := blockchain.VInt 3;
     "previous_hash" := blockchain.VStr
       "b2b777b68743d2d5c7e9327f633cf49d7c76deaa72b780711c0c8cc675cfdf9b" ]}.


End further.

(** * Properties *)

(** ** Hexadecimal text *)

Lemma hex_value_digit (n : N) :
  (n < 16)%N → hex_value (hex_digit n) = Some (Z.of_N n).
Proof.
  intros Hn.
  assert (Hc : n ∈ map N.of_nat (seq 0 16)).
  { apply list_elem_of_fmap. exists (N.to_nat n). split; [lia|].
    apply list_elem_of_In, in_seq. lia. }
  cbn in Hc. set_unfold in Hc.
  repeat (destruct Hc as [-> | Hc]; [reflexivity|]). done.
Qed.

Lemma hex_digit_not_minus (n : N) :
  (n < 16)%N → hex_digit n ≠ "-"%char.
Proof.
  intros Hn He. pose proof (hex_value_digit n Hn) as Hv.
  rewrite He in Hv. discriminate.
Qed.

Lemma byte_nibbles (b : byte) :
  (Byte.to_N b / 16 < 16)%N ∧ (Byte.to_N b mod 16 < 16)%N ∧
  Z.of_N (Byte.to_N b) = Z.of_N (Byte.to_N b / 16) * 16 + Z.of_N (Byte.to_N b mod 16).
Proof.
  pose proof (Byte.to_N_bounded b) as Hb.
  split; [apply N.Div0.div_lt_upper_bound; lia|].
  split; [apply N.mod_upper_bound; lia|].
  rewrite (N.div_mod (Byte.to_N b) 16) at 1 by lia. lia.
Qed.

Lemma int16_digits_hex (bs : list byte) (acc : Z) :
  int16_digits acc (hex bs) = Ok (be_value bs acc).
Proof.
  revert acc. induction bs as [|b bs IH]; intros acc; [reflexivity|].
  destruct (byte_nibbles b) as (Hhi & Hlo & Hb).
  change (hex (b :: bs)) with
    (String (hex_digit (Byte.to_N b / 16))
       (String (hex_digit (Byte.to_N b mod 16)) (hex bs))).
  cbn [int16_digits].
  rewrite (hex_value_digit _ Hhi), (hex_value_digit _ Hlo), IH.
  unfold be_value. cbn [fold_left]. do 2 f_equal. lia.
Qed.

Lemma int16_not_minus (c : ascii) (s : string) :
  c ≠ "-"%char → int16 (String c s) = int16_digits 0 (String c s).
Proof.
  intros Hc. destruct c as [[] [] [] [] [] [] [] []]; try reflexivity.
  by destruct Hc.
Qed.

(** [int(h, 16)] of a rendered digest never raises: it is the digest read
    as a big-endian number. *)
Lemma int16_hexdigest (d : digest) :
  int16 (hexdigest d) = Ok (digest_value d).
Proof.
  unfold hexdigest, digest_value.
  pose proof (length_vec_to_list d) as Hl.
  destruct (vec_to_list d) as [|b bs]; [discriminate|].
  rewrite <- int16_digits_hex.
  destruct (byte_nibbles b) as (Hhi & _ & _).
  change (hex (b :: bs)) with
    (String (hex_digit (Byte.to_N b / 16))
       (String (hex_digit (Byte.to_N b mod 16)) (hex bs))).
  apply int16_not_minus, hex_digit_not_minus, Hhi.
Qed.

(** ** SHA-256 on the test vectors of FIPS 180-4 *)

Example sha256_empty :
  hexdigest (SHA256.digest "")
  = "e3b0c44298fc1c149afbf4c8996fb92427ae41e4649b934ca495991b7852b855".
Proof. vm_compute. reflexivity. Qed.

Example sha256_abc :
  hexdigest (SHA256.digest "abc")
  = "ba7816bf8f01cfea414140de5dae2223b00361a396177a9cb410ff61f20015ad".
Proof. vm_compute. reflexivity. Qed.

Example sha256_two_blocks :
  hexdigest (SHA256.digest
    "abcdbcdecdefdefgefghfghighijhijkijkljklmklmnlmnomnopnopq")
  = "248d6a61d20638b8e5c026930c3e6039a33ce45964ff2167f6ecedd419db06c1".
Proof. vm_compute. reflexivity. Qed.

(** ** bitcoin.py *)

Section bitcoin_properties.

Import bitcoin.

Variable sha256 : string → digest.
Variable repr : string → string.

Local Abbreviation hash := (bitcoin.hash sha256 repr).
Local Abbreviation create_block := (bitcoin.create_block sha256 repr).
Local Abbreviation init := (bitcoin.init sha256 repr).
Local Abbreviation header_value := (bitcoin.header_value sha256 repr).
Local Abbreviation meets_target := (bitcoin.meets_target sha256 repr).
Local Abbreviation proof_of_work_loop := (bitcoin.proof_of_work_loop sha256 repr).
Local Abbreviation proof_of_work := (bitcoin.proof_of_work sha256 repr).
Local Abbreviation is_chain_valid_loop := (bitcoin.is_chain_valid_loop sha256 repr).
Local Abbreviation is_chain_valid := (bitcoin.is_chain_valid sha256 repr).
Local Abbreviation mine_block := (bitcoin.mine_block sha256 repr).
Local Abbreviation reachable := (bitcoin.reachable sha256 repr).

Lemma calculate_target_nbits :
  calculate_target (VInt 486604799) = Ok target.
Proof. vm_compute. reflexivity. Qed.

Lemma create_block_sealed self now n ph :
  sealed (current_transactions self) (create_block self now n ph).
Proof. unfold sealed, bitcoin.create_block. eauto 10. Qed.

Lemma with_nonce_create_block self now n m ph :
  with_nonce (create_block self now n ph) m = create_block self now m ph.
Proof. reflexivity. Qed.

Lemma sealed_with_nonce l block m :
  sealed l block → sealed l (with_nonce block m).
Proof.
  intros (i & ts & n & ph & th & ->).
  exists i, ts, m, ph, th. reflexivity.
Qed.

(** The hash of a sealed block reads four texts and no list: it is the
    same in every ledger. *)
Lemma hash_sealed l block :
  sealed l block →
  ∃ ts ph th n,
    block !! "timestamp" = Some (VStr ts) ∧
    block !! "previous_hash" = Some (VStr ph) ∧
    block !! "transactions_hash" = Some (VStr th) ∧
    block !! "nonce" = Some (VInt n) ∧
    block !! "proof" = None ∧
    block !! "transactions" = Some (VList l) ∧
    ∀ self, hash self block
            = Ok (hexdigest (sha256 (ts +:+ ph +:+ th +:+ pretty n))).
Proof.
  intros (i & ts & n & ph & th & ->).
  exists ts, ph, th, n. repeat split; reflexivity.
Qed.

Lemma header_value_sealed l block self :
  sealed l block → ∃ v, header_value self block = Ok v.
Proof.
  intros (ts & ph & th & n & _ & _ & _ & _ & _ & _ & Hh)%hash_sealed.
  unfold bitcoin.header_value. rewrite Hh. cbn.
  rewrite int16_hexdigest. eauto.
Qed.

Lemma with_nonce_id (block : dict) n :
  block !! "nonce" = Some (VInt n) → with_nonce block n = block.
Proof. apply insert_id. Qed.

Lemma with_nonce_twice (block : dict) n m :
  with_nonce (with_nonce block n) m = with_nonce block m.
Proof. apply insert_insert_eq. Qed.

(** Whenever the search returns, it returns the template with the least
    nonce, from the starting one on, whose header value is below the
    target. *)
Lemma proof_of_work_loop_sound fuel self tgt (block block' : dict) n :
  block !! "nonce" = Some (VInt n) →
  proof_of_work_loop fuel self tgt block = Some (Ok block') →
  ∃ m, n ≤ m ∧ block' = with_nonce block m ∧
       meets_target self tgt block' ∧
       ∀ k, n ≤ k < m → ¬ meets_target self tgt (with_nonce block k).
Proof.
  revert block n. induction fuel as [|fuel IH]; intros block n Hn Hrun;
    [discriminate|].
  cbn [bitcoin.proof_of_work_loop] in Hrun.
  fold (header_value self block) in Hrun.
  destruct (header_value self block) as [v|e] eqn:Hv; [|discriminate].
  destruct (v <? tgt) eqn:Hlt.
  - injection Hrun as <-. exists n.
    rewrite (with_nonce_id _ _ Hn). split; [lia|]. split; [done|].
    split; [|lia]. exists v. split; [done|lia].
  - unfold incr_nonce, getitem in Hrun. rewrite Hn in Hrun. cbn in Hrun.
    apply (IH _ (n + 1)) in Hrun as (m & Hm & -> & Hmeet & Hleast);
      [|apply lookup_insert_eq].
    fold (with_nonce block (n + 1)) in *.
    rewrite with_nonce_twice in *.
    exists m. split; [lia|]. split; [done|]. split; [done|].
    intros k Hk. destruct (decide (k = n)) as [->|Hne].
    + rewrite (with_nonce_id _ _ Hn). intros (v' & Hv' & Hlt').
      rewrite Hv in Hv'. injection Hv' as <-. lia.
    + specialize (Hleast k). rewrite with_nonce_twice in Hleast.
      apply Hleast. lia.
Qed.

(** If some nonce from the starting one on meets the target, and no header
    value raises on the way, the search returns. *)
Lemma proof_of_work_loop_returns self tgt (d : nat) (block : dict) n :
  block !! "nonce" = Some (VInt n) →
  (∀ k, ∃ v, header_value self (with_nonce block k) = Ok v) →
  meets_target self tgt (with_nonce block (n + Z.of_nat d)) →
  ∃ fuel block', proof_of_work_loop fuel self tgt block = Some (Ok block').
Proof.
  revert block n. induction d as [|d IH]; intros block n Hn Hok Hmeet.
  - exists 1%nat, block. cbn [bitcoin.proof_of_work_loop].
    fold (header_value self block).
    replace (n + Z.of_nat 0) with n in Hmeet by lia.
    rewrite (with_nonce_id _ _ Hn) in Hmeet.
    destruct Hmeet as (v & -> & Hlt).
    by apply Z.ltb_lt in Hlt as ->.
  - destruct (Hok n) as [v Hv]. rewrite (with_nonce_id _ _ Hn) in Hv.
    destruct (v <? tgt) eqn:Hlt.
    + exists 1%nat, block. cbn [bitcoin.proof_of_work_loop].
      fold (header_value self block). by rewrite Hv, Hlt.
    + destruct (IH (with_nonce block (n + 1)) (n + 1)) as (fuel & b & Hrun).
      * apply lookup_insert_eq.
      * intros k. rewrite with_nonce_twice. apply Hok.
      * rewrite with_nonce_twice.
        by replace (n + 1 + Z.of_nat d) with (n + Z.of_nat (S d)) by lia.
      * exists (S fuel), b. cbn [bitcoin.proof_of_work_loop].
        fold (header_value self block). rewrite Hv, Hlt.
        unfold incr_nonce, getitem. rewrite Hn. exact Hrun.
Qed.

(** What a returning [proof_of_work] has done. *)
Lemma proof_of_work_returns fuel now self block self' :
  proof_of_work fuel now self = Some (Ok (block, self')) →
  ∃ previous h n,
    last (chain self) = Some previous ∧ hash self previous = Ok h ∧
    1 ≤ n ∧ block = create_block self now n h ∧
    meets_target self target block ∧
    (∀ k, 1 ≤ k < n → ¬ meets_target self target (create_block self now k h)) ∧
    self' = set_chain self (chain self ++ [block]).
Proof.
  unfold bitcoin.proof_of_work, get_previous_block. intros Hrun.
  destruct (last (chain self)) as [previous|]; [|discriminate].
  cbn in Hrun. destruct (hash self previous) as [h|] eqn:Hh; [|discriminate].
  change (getitem (create_block self now 1 h) "nbits")
    with (Ok (VInt 486604799) : res val) in Hrun.
  cbn [mbind res_bind] in Hrun. rewrite calculate_target_nbits in Hrun.
  destruct (proof_of_work_loop fuel self target (create_block self now 1 h))
    as [[b|]|] eqn:Hloop; try discriminate.
  injection Hrun as <- <-.
  apply (proof_of_work_loop_sound _ _ _ _ _ 1) in Hloop
    as (n & Hn & -> & Hmeet & Hleast); [|reflexivity].
  exists previous, h, n. rewrite with_nonce_create_block in *.
  repeat split; try done.
Qed.


Lemma proof_of_work_loop_no_raise fuel self tgt l (block : dict) e :
  sealed l block →
  proof_of_work_loop fuel self tgt block ≠ Some (Raise e).
Proof.
  revert block. induction fuel as [|fuel IH]; intros block Hs; [done|].
  cbn [bitcoin.proof_of_work_loop]. fold (header_value self block).
  destruct (header_value_sealed _ _ self Hs) as [v ->].
  destruct (v <? tgt); [done|].
  destruct (hash_sealed _ _ Hs) as (ts & ph & th & n & _ & _ & _ & Hn & _).
  unfold incr_nonce, getitem. rewrite Hn. cbn.
  by apply IH, sealed_with_nonce.
Qed.

Lemma bitcoin_ledger_inv_init now : ledger_inv sha256 repr (init now).
Proof.
  split; cbn.
  - by eexists.
  - done.
  - repeat constructor. eexists _, _, _, _, _. reflexivity.
  - intros [|i] block; [|done]. by intros [= <-].
  - intros [|i] previous block; done.
Qed.

Lemma bitcoin_ledger_inv_new_transaction self tr_str :
  ledger_inv sha256 repr self →
  ledger_inv sha256 repr (new_transaction tr_str self).
Proof.
  intros [Hpool Hfirst Hsealed Hindex Hlinked]. split; cbn.
  - rewrite lookup_insert_eq. by eexists.
  - done.
  - done.
  - done.
  - intros i previous block Hp Hb.
    destruct (Hlinked i previous block Hp Hb) as (h & Hh & Hph).
    exists h. split; [|done].
    rewrite Forall_lookup in Hsealed.
    destruct (hash_sealed _ _ (Hsealed _ _ Hp))
      as (ts & ph & th & n & _ & _ & _ & _ & _ & _ & Hhash).
    rewrite Hhash in *. done.
Qed.

Lemma bitcoin_ledger_inv_proof_of_work fuel now self block self' :
  ledger_inv sha256 repr self →
  proof_of_work fuel now self = Some (Ok (block, self')) →
  ledger_inv sha256 repr self'.
Proof.
  intros [Hpool Hfirst Hsealed Hindex Hlinked] Hrun.
  apply proof_of_work_returns in Hrun
    as (previous & h & n & Hlast & Hh & _ & -> & _ & _ & ->).
  pose proof (create_block_sealed self now n h) as Hnew.
  split; cbn.
  - done.
  - by destruct (chain self).
  - apply Forall_app. split; [done|]. by constructor.
  - intros i b Hb. apply lookup_app_Some in Hb as [Hb|[Hlen Hb]]; [eauto|].
    apply list_lookup_singleton_Some in Hb as [Hi <-].
    replace i with (length (chain self)) by lia. reflexivity.
  - intros i p b Hp Hb.
    assert (Hsame : ∀ q, q ∈ chain self → hash (set_chain self
              (chain self ++ [create_block self now n h])) q = hash self q).
    { intros q Hq. rewrite Forall_forall in Hsealed.
      destruct (hash_sealed _ _ (Hsealed _ Hq))
        as (ts & ph & th & m & _ & _ & _ & _ & _ & _ & Hhash).
      by rewrite !Hhash. }
    apply lookup_app_Some in Hb as [Hb|[Hlen Hb]].
    + assert (Hp' : chain self !! i = Some p).
      { apply lookup_lt_Some in Hb.
        rewrite lookup_app_l in Hp by lia. done. }
      rewrite Hsame by (eapply list_elem_of_lookup_2; eauto). eauto.
    + apply list_lookup_singleton_Some in Hb as [Hi <-].
      assert (Hp' : chain self !! i = Some p).
      { rewrite lookup_app_l in Hp by lia. done. }
      assert (p = previous) as ->.
      { rewrite last_lookup in Hlast.
        replace (Nat.pred (length (chain self))) with i in Hlast by lia.
        congruence. }
      exists h. rewrite Hsame by (eapply list_elem_of_lookup_2; eauto).
      split; [done|reflexivity].
Qed.

(** Every ledger of a process has the shape [ledger_inv]. *)
Lemma bitcoin_reachable_ledger_inv self :
  reachable self → ledger_inv sha256 repr self.
Proof.
  induction 1 as [now|self tr_str _ IH|self self' fuel now block _ IH Hrun].
  - apply bitcoin_ledger_inv_init.
  - by apply bitcoin_ledger_inv_new_transaction.
  - by eapply bitcoin_ledger_inv_proof_of_work.
Qed.


Lemma bitcoin_linkage self (i : nat) (previous block : dict) :
  reachable self →
  chain self !! i = Some previous →
  chain self !! S i = Some block →
  ∃ h, hash self previous = Ok h ∧
       block !! "previous_hash" = Some (VStr h).
Proof.
  intros Hr%bitcoin_reachable_ledger_inv. apply (inv_linked _ _ _ Hr).
Qed.

Lemma bitcoin_genesis now :
  ∃ g, chain (init now) = [g] ∧
       g !! "index" = Some (VInt 1) ∧
       g !! "previous_hash" = Some (VStr "0") ∧
       transactions (init now) g = Some [].
Proof. eexists. repeat split. Qed.

Lemma bitcoin_singleton self (block : dict) :
  is_chain_valid self [block] = Ok true.
Proof. reflexivity. Qed.

(** The first block enters the verdict through its hash and its
    ['proof'] only. *)
Lemma bitcoin_first_block_unchecked self (g g' : dict) rest :
  hash self g = hash self g' →
  g !! "proof" = g' !! "proof" →
  is_chain_valid self (g :: rest) = is_chain_valid self (g' :: rest).
Proof.
  intros Hh Hp. destruct rest as [|block rest]; [reflexivity|].
  cbn [bitcoin.is_chain_valid bitcoin.is_chain_valid_loop].
  unfold getitem. by rewrite Hh, Hp.
Qed.

Lemma bitcoin_tamper self (g b1 : dict) rest v s :
  is_chain_valid self (g :: b1 :: rest) = Ok true →
  b1 !! "previous_hash" = Some v →
  VStr s ≠ v →
  ∀ rest',
    is_chain_valid self (g :: <["previous_hash" := VStr s]> b1 :: rest')
    = Ok false.
Proof.
  intros Hvalid Hv Hs rest'.
  cbn [bitcoin.is_chain_valid bitcoin.is_chain_valid_loop] in *.
  unfold getitem in *. rewrite Hv in Hvalid. rewrite lookup_insert_eq.
  cbn [mbind res_bind] in *.
  destruct (hash self g) as [h|]; [|discriminate]. cbn [mbind res_bind] in *.
  destruct (decide (v ≠ VStr h)) as [|Heq%dec_stable]; [discriminate|].
  subst v. by rewrite decide_True.
Qed.

(** What [proof_of_work] changes: it appends the block it returns to the
    chain, and leaves the list objects, the pool among them, as they
    were. *)
Lemma bitcoin_proof_of_work_appends fuel now self block self' :
  proof_of_work fuel now self = Some (Ok (block, self')) →
  chain self' = chain self ++ [block] ∧
  heap self' = heap self ∧
  current_transactions self' = current_transactions self.
Proof.
  intros (? & ? & ? & _ & _ & _ & _ & _ & _ & ->)%proof_of_work_returns.
  done.
Qed.



Lemma transactions_sealed self (block : dict) :
  ledger_inv sha256 repr self → block ∈ chain self →
  transactions self block = Some (pool self).
Proof.
  intros [[p Hp] _ Hsealed _ _] Hb. rewrite Forall_forall in Hsealed.
  destruct (hash_sealed _ _ (Hsealed _ Hb))
    as (ts & ph & th & n & _ & _ & _ & _ & _ & Htx & _).
  unfold transactions, pool, deref. by rewrite Htx, Hp.
Qed.

(** C1, on bitcoin.py: once a block has been mined, [is_chain_valid] on the
    chain of the ledger does not return [True]; the link of the second
    block passes, and the validator then reads ['proof'] in the first
    block, which has none: it raises [KeyError('proof')]. *)
Theorem bitcoin_validate_mined_chain_raises self :
  reachable self →
  (2 ≤ length (chain self))%nat →
  is_chain_valid self (chain self) = Raise (KeyError "proof").
Proof.
  intros Hr%bitcoin_reachable_ledger_inv Hlen.
  destruct (chain self) as [|g [|b1 rest]] eqn:Hc; cbn in Hlen; try lia.
  destruct (inv_linked _ _ _ Hr 0%nat g b1) as (h & Hh & Hph);
    [by rewrite Hc..|].
  pose proof (inv_sealed _ _ _ Hr) as Hsealed. rewrite Hc in Hsealed.
  apply Forall_cons in Hsealed as [Hg _].
  destruct (hash_sealed _ _ Hg) as (? & ? & ? & ? & _ & _ & _ & _ & Hnp & _).
  cbn [bitcoin.is_chain_valid bitcoin.is_chain_valid_loop].
  unfold getitem. rewrite Hph, Hnp. cbn [mbind res_bind]. rewrite Hh.
  cbn [mbind res_bind]. by rewrite decide_False by (by intros []).
Qed.

(** C3, on bitcoin.py: a block in the chain holds the pool itself, not a
    copy: after [new_transaction] the same block is in the chain, and the
    list it shows under ['transactions'] has the new record at its end. *)
Theorem bitcoin_sealed_blocks_share_pool self (block : dict) tr_str :
  reachable self →
  block ∈ chain self →
  block ∈ chain (new_transaction tr_str self) ∧
  transactions self block = Some (pool self) ∧
  transactions (new_transaction tr_str self) block
  = Some (pool self ++ [tr_str]).
Proof.
  intros Hr%bitcoin_reachable_ledger_inv Hb.
  split; [done|]. split; [by apply transactions_sealed|].
  rewrite transactions_sealed
    by (by try apply bitcoin_ledger_inv_new_transaction).
  unfold pool, deref. cbn. by rewrite lookup_insert_eq.
Qed.

(** C5, on bitcoin.py: [proof_of_work] does not clear the pool: after a
    block has been mined the pool holds what it held, and every block of
    the chain, the new one and the older ones, shows exactly that list. *)
Theorem bitcoin_pool_kept_after_mining fuel now self block self' :
  reachable self →
  proof_of_work fuel now self = Some (Ok (block, self')) →
  pool self' = pool self ∧
  block ∈ chain self' ∧
  ∀ b : dict, b ∈ chain self' → transactions self' b = Some (pool self).
Proof.
  intros Hr Hrun.
  assert (Hinv : ledger_inv sha256 repr self').
  { eapply bitcoin_ledger_inv_proof_of_work; [|done].
    by apply bitcoin_reachable_ledger_inv. }
  apply bitcoin_proof_of_work_appends in Hrun as (Hc & Hh & Hct).
  assert (Hpool : pool self' = pool self).
  { unfold pool, deref. by rewrite Hh, Hct. }
  split; [done|]. split; [rewrite Hc; set_solver|].
  intros b Hb. rewrite <- Hpool. by apply transactions_sealed.
Qed.

(** C7, on bitcoin.py: the search starts from the template with nonce 1;
    when it returns, the block is the template sealed with the least nonce
    [n ≥ 1] whose hash, read as a number, is below the target; it never
    raises; and it does return as soon as some nonce meets the target. *)
Theorem bitcoin_proof_of_work_least_nonce now self h :
  (previous ← get_previous_block self; hash self previous) = Ok h →
  let template := create_block self now 1 h in
  (∀ fuel block self',
     proof_of_work fuel now self = Some (Ok (block, self')) →
     ∃ n, 1 ≤ n ∧ block = with_nonce template n ∧
          meets_target self target block ∧
          ∀ k, 1 ≤ k < n → ¬ meets_target self target (with_nonce template k)) ∧
  (∀ fuel e, proof_of_work fuel now self ≠ Some (Raise e)) ∧
  (∀ n, 1 ≤ n → meets_target self target (with_nonce template n) →
     ∃ fuel block self',
       proof_of_work fuel now self = Some (Ok (block, self'))).
Proof.
  intros Hprev template. split; [|split].
  - intros fuel block self' Hrun.
    apply proof_of_work_returns in Hrun
      as (previous & h' & n & Hlast & Hh & Hn & -> & Hmeet & Hleast & _).
    unfold get_previous_block in Hprev. rewrite Hlast in Hprev.
    cbn in Hprev. rewrite Hh in Hprev. injection Hprev as ->.
    exists n. by repeat split.
  - intros fuel e. unfold bitcoin.proof_of_work. rewrite Hprev.
    change (getitem (create_block self now 1 h) "nbits")
      with (Ok (VInt 486604799) : res val).
    cbn [mbind res_bind]. rewrite calculate_target_nbits.
    fold template.
    destruct (proof_of_work_loop fuel self target template)
      as [[b|e']|] eqn:Hloop; try done.
    by apply proof_of_work_loop_no_raise
      with (l := current_transactions self) in Hloop;
      [|apply create_block_sealed].
  - intros n Hn Hmeet.
    destruct (proof_of_work_loop_returns self target (Z.to_nat (n - 1))
                template 1) as (fuel & b & Hloop).
    + reflexivity.
    + intros k. eapply header_value_sealed, sealed_with_nonce,
        create_block_sealed.
    + by replace (1 + Z.of_nat (Z.to_nat (n - 1))) with n by lia.
    + exists fuel, b, (set_chain self (chain self ++ [b])).
      unfold bitcoin.proof_of_work. rewrite Hprev.
      change (getitem (create_block self now 1 h) "nbits")
        with (Ok (VInt 486604799) : res val).
      cbn [mbind res_bind]. rewrite calculate_target_nbits.
      fold template. by rewrite Hloop.
Qed.

End bitcoin_properties.

(** ** blockchain.py *)

Section blockchain_properties.

Import blockchain.

Variable sha256 : string → digest.
Variable json_dumps : dict → string.

Local Abbreviation hash := (blockchain.hash sha256 json_dumps).
Local Abbreviation solves := (blockchain.solves sha256).
Local Abbreviation init := (blockchain.init).
Local Abbreviation linked := (blockchain.linked sha256 json_dumps).
Local Abbreviation proved := (blockchain.proved sha256).
Local Abbreviation rejected := (blockchain.rejected sha256 json_dumps).
Local Abbreviation proof_of_work_loop := (blockchain.proof_of_work_loop sha256).
Local Abbreviation proof_of_work := (blockchain.proof_of_work sha256).
Local Abbreviation is_chain_valid_loop :=
  (blockchain.is_chain_valid_loop sha256 json_dumps).
Local Abbreviation is_chain_valid := (blockchain.is_chain_valid sha256 json_dumps).
Local Abbreviation mine_block := (blockchain.mine_block sha256 json_dumps).
Local Abbreviation reachable := (blockchain.reachable sha256 json_dumps).
Local Abbreviation ledger_inv := (blockchain.ledger_inv sha256 json_dumps).

(** The search returns the least proof, from the starting one on, that
    solves the puzzle against the previous proof. *)
Lemma blockchain_loop_sound fuel previous_proof n m :
  proof_of_work_loop fuel previous_proof n = Some (Ok m) →
  ∃ p, previous_proof = VInt p ∧ n ≤ m ∧ solves m p ∧
       ∀ k, n ≤ k < m → ¬ solves k p.
Proof.
  revert n. induction fuel as [|fuel IH]; intros n Hrun; [discriminate|].
  cbn [blockchain.proof_of_work_loop] in Hrun.
  destruct previous_proof as [p|]; [|discriminate]. cbn [pow2] in *.
  fold (solves n p) in Hrun. case_decide as Hz.
  - injection Hrun as <-. exists p. repeat split; [lia|done|lia].
  - apply IH in Hrun as (p' & Hp' & Hm & Hsolved & Hleast).
    injection Hp' as <-. exists p. repeat split; [lia|done|].
    intros k Hk. destruct (decide (k = n)) as [->|]; [done|].
    apply Hleast. lia.
Qed.

Lemma blockchain_loop_returns (d : nat) p n :
  solves (n + Z.of_nat d) p →
  ∃ fuel m, proof_of_work_loop fuel (VInt p) n = Some (Ok m).
Proof.
  revert n. induction d as [|d IH]; intros n Hsolved.
  - exists 1%nat, n. cbn. replace (n + Z.of_nat 0) with n in Hsolved by lia.
    fold (solves n p). by rewrite decide_True.
  - destruct (decide (solves n p)) as [Hz|Hz].
    + exists 1%nat, n. cbn. fold (solves n p). by rewrite decide_True.
    + destruct (IH (n + 1)) as (fuel & m & Hrun).
      { by replace (n + 1 + Z.of_nat d) with (n + Z.of_nat (S d)) by lia. }
      exists (S fuel), m. cbn [blockchain.proof_of_work_loop pow2].
      fold (solves n p). by rewrite decide_False.
Qed.

(** In blockchain.py the search is over a proof and not over a block: it
    starts from 1, returns the least proof that solves the puzzle, and
    returns as soon as one exists. *)
Lemma blockchain_proof_of_work_least_proof p :
  (∀ fuel m, proof_of_work fuel (VInt p) = Some (Ok m) →
     1 ≤ m ∧ solves m p ∧ ∀ k, 1 ≤ k < m → ¬ solves k p) ∧
  (∀ m, 1 ≤ m → solves m p →
     ∃ fuel m', proof_of_work fuel (VInt p) = Some (Ok m')).
Proof.
  split.
  - intros fuel m (p' & Hp' & H)%blockchain_loop_sound.
    by injection Hp' as <-.
  - intros m Hm Hsolved. apply (blockchain_loop_returns (Z.to_nat (m - 1))).
    by replace (1 + Z.of_nat (Z.to_nat (m - 1))) with m by lia.
Qed.

(** One round of the validator's loop. *)
Lemma is_chain_valid_loop_pass (previous block : dict) rest :
  linked previous block → proved previous block →
  is_chain_valid_loop previous (block :: rest)
  = is_chain_valid_loop block rest.
Proof.
  intros Hl (p & c & Hp & Hc & Hz).
  cbn [blockchain.is_chain_valid_loop]. unfold getitem.
  rewrite Hl, Hp, Hc. cbn [mbind res_bind pow2].
  rewrite decide_False by (by intros []).
  fold (solves c p). by rewrite decide_False by (by intros []).
Qed.

Lemma is_chain_valid_loop_reject (previous block : dict) rest :
  rejected previous block →
  is_chain_valid_loop previous (block :: rest) = Ok false.
Proof.
  intros [(v & Hv & Hne)|(Hl & p & c & Hp & Hc & Hz)];
    cbn [blockchain.is_chain_valid_loop]; unfold getitem.
  - rewrite Hv. cbn [mbind res_bind]. by rewrite decide_True.
  - rewrite Hl, Hp, Hc. cbn [mbind res_bind pow2].
    rewrite decide_False by (by intros []).
    fold (solves c p). by rewrite decide_True.
Qed.

Lemma is_chain_valid_loop_true (previous block : dict) rest :
  is_chain_valid_loop previous (block :: rest) = Ok true →
  linked previous block ∧ proved previous block ∧
  is_chain_valid_loop block rest = Ok true.
Proof.
  cbn [blockchain.is_chain_valid_loop]. unfold getitem, blockchain.linked.
  destruct (block !! "previous_hash") as [v|]; [|done].
  cbn [mbind res_bind].
  destruct (decide (v ≠ VStr (hash previous))) as [|Heq%dec_stable]; [done|].
  subst v. unfold blockchain.proved.
  destruct (previous !! "proof") as [[p|]|]; try done;
    destruct (block !! "proof") as [[c|]|]; try done.
  cbn [mbind res_bind pow2]. fold (solves c p).
  case_decide as Hz; [done|]. eauto 10.
Qed.

Lemma is_chain_valid_true_iff (g : dict) (rest : list dict) :
  is_chain_valid (g :: rest) = Ok true ↔
  ∀ (i : nat) (previous block : dict),
    (g :: rest) !! i = Some previous → rest !! i = Some block →
    linked previous block ∧ proved previous block.
Proof.
  cbn [blockchain.is_chain_valid]. revert g.
  induction rest as [|b rest IH]; intros g.
  - split; [|done]. by intros _ i previous block _ Hb.
  - split.
    + intros (Hl & Hp & Hrest)%is_chain_valid_loop_true [|i] previous block.
      * by intros [= <-] [= <-].
      * cbn. by apply IH.
    + intros Hall. destruct (Hall 0%nat g b) as [Hl Hp]; [done..|].
      rewrite is_chain_valid_loop_pass by done. apply IH.
      intros i previous block. apply (Hall (S i)).
Qed.

Lemma is_chain_valid_first_reject (i : nat) (g previous block : dict)
    (rest later : list dict) :
  (g :: rest) !! i = Some previous → rest !! i = Some block →
  (∀ (j : nat) (p b : dict), (j < i)%nat →
     (g :: rest) !! j = Some p → rest !! j = Some b →
     linked p b ∧ proved p b) →
  rejected previous block →
  is_chain_valid (take (S (S i)) (g :: rest) ++ later) = Ok false.
Proof.
  revert g rest. induction i as [|i IH]; intros g rest Hp Hb Hbefore Hrej.
  - destruct rest as [|b rest]; [done|]. injection Hp as <-.
    injection Hb as <-. cbn. by apply is_chain_valid_loop_reject.
  - destruct rest as [|b rest]; [done|].
    destruct (Hbefore 0%nat g b) as [Hl Hpr]; [lia|done..|].
    change (take (S (S (S i))) (g :: b :: rest) ++ later)
      with (g :: b :: (take (S i) rest ++ later)).
    cbn [blockchain.is_chain_valid].
    rewrite is_chain_valid_loop_pass by done.
    apply (IH b rest); [done..| |done].
    intros j p' b' Hj. apply (Hbefore (S j)). lia.
Qed.

(** C2, as blockchain.py does it: a single pass over the blocks after the
    first.  The verdict is [True] exactly when every block names the hash of
    its predecessor and its proof solves the puzzle
    [sha256(str(proof² - previous proof²))[:7] == '0000000'] (the hash of
    the block itself is not tested); and at the first block that fails one
    of the two checks the verdict is [False], whatever blocks come later. *)
Theorem blockchain_is_chain_valid_checks (g : dict) (rest : list dict) :
  (is_chain_valid (g :: rest) = Ok true ↔
   ∀ (i : nat) (previous block : dict),
     (g :: rest) !! i = Some previous → rest !! i = Some block →
     linked previous block ∧ proved previous block) ∧
  (∀ (i : nat) (previous block : dict),
     (g :: rest) !! i = Some previous → rest !! i = Some block →
     (∀ (j : nat) (p b : dict), (j < i)%nat →
        (g :: rest) !! j = Some p → rest !! j = Some b →
        linked p b ∧ proved p b) →
     rejected previous block →
     ∀ later : list dict,
       is_chain_valid (take (S (S i)) (g :: rest) ++ later) = Ok false).
Proof.
  split; [apply is_chain_valid_true_iff|].
  intros i previous block Hp Hb Hbefore Hrej later.
  by eapply is_chain_valid_first_reject.
Qed.

Lemma mine_block_returns fuel now self block self' :
  mine_block fuel now self = Some (Ok (block, self')) →
  ∃ (previous : dict) (p proof : Z),
    last (chain self) = Some previous ∧
    previous !! "proof" = Some (VInt p) ∧
    proof_of_work fuel (VInt p) = Some (Ok proof) ∧
    block = {[ "index" := VInt (Z.of_nat (length (chain self)) + 1);
               "timestamp" := VStr now; "proof" := VInt proof;
               "previous_hash" := VStr (hash previous) ]} ∧
    self' = {| chain := chain self ++ [block] |}.
Proof.
  unfold blockchain.mine_block, get_previous_block, getitem. intros Hrun.
  destruct (last (chain self)) as [previous|]; [|done].
  cbn [mbind res_bind] in Hrun.
  destruct (previous !! "proof") as [pp|] eqn:Hpp; [|done].
  cbn [mbind res_bind] in Hrun.
  destruct (proof_of_work fuel pp) as [[proof|]|] eqn:Hpow; try done.
  destruct (blockchain_loop_sound _ _ _ _ Hpow) as (p & -> & _).
  injection Hrun as <- <-. exists previous, p, proof. done.
Qed.

Lemma blockchain_ledger_inv_init now : ledger_inv (init now).
Proof.
  split; cbn.
  - done.
  - repeat constructor. by eexists.
  - intros [|i] block; [|done]. by intros [= <-].
  - intros [|i] previous block; done.
Qed.

Lemma blockchain_ledger_inv_mine_block fuel now self block self' :
  ledger_inv self →
  mine_block fuel now self = Some (Ok (block, self')) →
  ledger_inv self'.
Proof.
  intros [Hfirst Hproof Hindex Hchecked] Hrun.
  destruct (mine_block_returns _ _ _ _ _ Hrun)
    as (previous & p & proof & Hlast & Hp & Hpow & -> & ->).
  apply blockchain_loop_sound in Hpow as (p' & Hp' & _ & Hsolved & _).
  injection Hp' as <-.
  split; cbn.
  - by destruct (chain self).
  - apply Forall_app. split; [done|]. repeat constructor. by eexists.
  - intros i b Hb. apply lookup_app_Some in Hb as [Hb|[Hlen Hb]]; [eauto|].
    apply list_lookup_singleton_Some in Hb as [Hi <-].
    replace i with (length (chain self)) by lia. reflexivity.
  - intros i q b Hq Hb.
    apply lookup_app_Some in Hb as [Hb|[Hlen Hb]].
    + apply lookup_lt_Some in Hb as Hlt.
      rewrite lookup_app_l in Hq by lia. eauto.
    + apply list_lookup_singleton_Some in Hb as [Hi <-].
      rewrite lookup_app_l in Hq by lia.
      assert (q = previous) as ->.
      { rewrite last_lookup in Hlast.
        replace (Nat.pred (length (chain self))) with i in Hlast by lia.
        congruence. }
      split; [reflexivity|]. exists p, proof. done.
Qed.

Lemma blockchain_reachable_ledger_inv self : reachable self → ledger_inv self.
Proof.
  induction 1 as [now|self self' fuel now block _ IH Hrun].
  - apply blockchain_ledger_inv_init.
  - by eapply blockchain_ledger_inv_mine_block.
Qed.


Lemma blockchain_linkage self (i : nat) (previous block : dict) :
  reachable self →
  chain self !! i = Some previous →
  chain self !! S i = Some block →
  block !! "previous_hash" = Some (VStr (hash previous)).
Proof.
  intros Hr%blockchain_reachable_ledger_inv Hp Hb.
  by destruct (inv_checked _ _ _ Hr i previous block).
Qed.

Lemma blockchain_genesis now :
  ∃ g : dict, chain (init now) = [g] ∧
       g !! "index" = Some (VInt 1) ∧
       g !! "previous_hash" = Some (VStr "0") ∧
       g !! "transactions" = None.
Proof. eexists. repeat split. Qed.

Lemma blockchain_singleton (block : dict) :
  is_chain_valid [block] = Ok true.
Proof. reflexivity. Qed.

Lemma blockchain_first_block_unchecked (g g' : dict) rest :
  hash g = hash g' →
  g !! "proof" = g' !! "proof" →
  is_chain_valid (g :: rest) = is_chain_valid (g' :: rest).
Proof.
  intros Hh Hp. destruct rest as [|block rest]; [reflexivity|].
  cbn [blockchain.is_chain_valid blockchain.is_chain_valid_loop].
  unfold getitem. by rewrite Hh, Hp.
Qed.

Lemma blockchain_tamper (g b1 : dict) rest v s :
  is_chain_valid (g :: b1 :: rest) = Ok true →
  b1 !! "previous_hash" = Some v →
  VStr s ≠ v →
  ∀ rest',
    is_chain_valid (g :: <["previous_hash" := VStr s]> b1 :: rest')
    = Ok false.
Proof.
  intros (Hl & _)%is_chain_valid_loop_true Hv Hs rest'.
  cbn [blockchain.is_chain_valid]. apply is_chain_valid_loop_reject. left.
  exists (VStr s). rewrite lookup_insert_eq. split; [done|].
  unfold blockchain.linked in Hl. congruence.
Qed.

(** In blockchain.py the search only returns the proof; the route appends
    the block, through [create_blockchain]. *)
Lemma blockchain_mine_block_appends fuel now self block self' :
  mine_block fuel now self = Some (Ok (block, self')) →
  chain self' = chain self ++ [block] ∧
  ∃ (previous : dict) (p proof : Z),
    last (chain self) = Some previous ∧
    previous !! "proof" = Some (VInt p) ∧
    proof_of_work fuel (VInt p) = Some (Ok proof) ∧
    block !! "proof" = Some (VInt proof).
Proof.
  intros (previous & p & proof & Hlast & Hp & Hpow & -> & ->)%mine_block_returns.
  split; [done|]. exists previous, p, proof. done.
Qed.

End blockchain_properties.

(** ** Both variants *)

(** C6: in the chain of every ledger of a process, of bitcoin.py and of
    blockchain.py, each block after the first holds under ['previous_hash']
    the hash of the block before it, as the ledger's own [hash] computes
    it. *)
Theorem linkage :
  (∀ sha256 repr self (i : nat) (previous block : bitcoin.dict),
     bitcoin.reachable sha256 repr self →
     bitcoin.chain self !! i = Some previous →
     bitcoin.chain self !! S i = Some block →
     ∃ h, bitcoin.hash sha256 repr self previous = Ok h ∧
          block !! "previous_hash" = Some (bitcoin.VStr h)) ∧
  (∀ sha256 json_dumps self (i : nat) (previous block : blockchain.dict),
     blockchain.reachable sha256 json_dumps self →
     blockchain.chain self !! i = Some previous →
     blockchain.chain self !! S i = Some block →
     block !! "previous_hash"
     = Some (blockchain.VStr (blockchain.hash sha256 json_dumps previous))).
Proof.
  split; intros.
  - by eapply bitcoin_linkage.
  - by eapply blockchain_linkage.
Qed.

(** C8: a freshly constructed ledger has a chain of one block, whose index
    is 1 and whose [previous_hash] is the text "0"; in bitcoin.py its list of
    transactions is empty, and in blockchain.py a block has no transactions
    at all. *)
Theorem genesis_invariant :
  (∀ sha256 repr now,
     ∃ g : bitcoin.dict,
       bitcoin.chain (bitcoin.init sha256 repr now) = [g] ∧
       g !! "index" = Some (bitcoin.VInt 1) ∧
       g !! "previous_hash" = Some (bitcoin.VStr "0") ∧
       bitcoin.transactions (bitcoin.init sha256 repr now) g = Some []) ∧
  (∀ now,
     ∃ g : blockchain.dict,
       blockchain.chain (blockchain.init now) = [g] ∧
       g !! "index" = Some (blockchain.VInt 1) ∧
       g !! "previous_hash" = Some (blockchain.VStr "0") ∧
       g !! "transactions" = None).
Proof.
  split; intros.
  - apply bitcoin_genesis.
  - apply blockchain_genesis.
Qed.

(** C9: if [is_chain_valid] accepts a chain of two blocks or more, then
    after the [previous_hash] of the block at index 1 is replaced by any
    other text the verdict is [False], and it is reached at that block:
    whatever the blocks after it are. *)
Theorem tamper_detection :
  (∀ sha256 json_dumps (g b1 : blockchain.dict) rest v s,
     blockchain.is_chain_valid sha256 json_dumps (g :: b1 :: rest) = Ok true →
     b1 !! "previous_hash" = Some v →
     blockchain.VStr s ≠ v →
     ∀ rest',
       blockchain.is_chain_valid sha256 json_dumps
         (g :: <["previous_hash" := blockchain.VStr s]> b1 :: rest')
       = Ok false) ∧
  (∀ sha256 repr self (g b1 : bitcoin.dict) rest v s,
     bitcoin.is_chain_valid sha256 repr self (g :: b1 :: rest) = Ok true →
     b1 !! "previous_hash" = Some v →
     bitcoin.VStr s ≠ v →
     ∀ rest',
       bitcoin.is_chain_valid sha256 repr self
         (g :: <["previous_hash" := bitcoin.VStr s]> b1 :: rest')
       = Ok false).
Proof.
  split; intros.
  - by eapply blockchain_tamper.
  - by eapply bitcoin_tamper.
Qed.

(** C10: [is_chain_valid] accepts every chain of one block, whatever the
    block holds; and on a longer chain the first block is never the block
    under test: it enters the verdict only through its hash and its
    ['proof'], which the checks of the second block read. *)
Theorem singleton_chain_valid :
  (∀ sha256 json_dumps (block : blockchain.dict),
     blockchain.is_chain_valid sha256 json_dumps [block] = Ok true) ∧
  (∀ sha256 repr self (block : bitcoin.dict),
     bitcoin.is_chain_valid sha256 repr self [block] = Ok true) ∧
  (∀ sha256 json_dumps (g g' : blockchain.dict) rest,
     blockchain.hash sha256 json_dumps g = blockchain.hash sha256 json_dumps g' →
     g !! "proof" = g' !! "proof" →
     blockchain.is_chain_valid sha256 json_dumps (g :: rest)
     = blockchain.is_chain_valid sha256 json_dumps (g' :: rest)) ∧
  (∀ sha256 repr self (g g' : bitcoin.dict) rest,
     bitcoin.hash sha256 repr self g = bitcoin.hash sha256 repr self g' →
     g !! "proof" = g' !! "proof" →
     bitcoin.is_chain_valid sha256 repr self (g :: rest)
     = bitcoin.is_chain_valid sha256 repr self (g' :: rest)).
Proof.
  split; [|split; [|split]]; intros.
  - apply blockchain_singleton.
  - apply bitcoin_singleton.
  - by apply blockchain_first_block_unchecked.
  - by apply bitcoin_first_block_unchecked.
Qed.

(** C4, as the code does it: in bitcoin.py [proof_of_work] returns the
    sealed block and appends it to the chain itself, and leaves the pool and
    every other list as they were; in blockchain.py the search returns the
    proof only, and the caller, the route [mine_block], appends the block. *)
Theorem proof_of_work_effect :
  (∀ sha256 repr fuel now self block self',
     bitcoin.proof_of_work sha256 repr fuel now self = Some (Ok (block, self')) →
     bitcoin.chain self' = bitcoin.chain self ++ [block] ∧
     bitcoin.heap self' = bitcoin.heap self ∧
     bitcoin.current_transactions self' = bitcoin.current_transactions self) ∧
  (∀ sha256 json_dumps fuel now self block self',
     blockchain.mine_block sha256 json_dumps fuel now self
     = Some (Ok (block, self')) →
     blockchain.chain self' = blockchain.chain self ++ [block] ∧
     ∃ (previous : blockchain.dict) (p proof : Z),
       last (blockchain.chain self) = Some previous ∧
       previous !! "proof" = Some (blockchain.VInt p) ∧
       blockchain.proof_of_work sha256 fuel (blockchain.VInt p)
       = Some (Ok proof) ∧
       block !! "proof" = Some (blockchain.VInt proof)).
Proof.
  split; intros.
  - by eapply bitcoin_proof_of_work_appends.
  - by eapply blockchain_mine_block_appends.
Qed.

(** ** The concrete ledgers *)

(** bitcoin.py, under SHA-256: on the ledger with one block and the pool
    ['a'], the search at [run.t1] fails for the nonces 1 and 2 and returns
    the block sealed with nonce 3, appended to the chain. *)
Lemma run_mined :
  bitcoin.proof_of_work SHA256.digest repr_ascii 3 run.t1 run.ledger1
  = Some (Ok (run.block2, run.ledger2)).
Proof. vm_compute. reflexivity. Qed.

Lemma run_reachable1 : bitcoin.reachable SHA256.digest repr_ascii run.ledger1.
Proof. apply bitcoin.reachable_new_transaction, bitcoin.reachable_init. Qed.

Lemma run_reachable2 : bitcoin.reachable SHA256.digest repr_ascii run.ledger2.
Proof.
  eapply bitcoin.reachable_proof_of_work; [apply run_reachable1|].
  apply run_mined.
Qed.

Lemma run_previous_hash :
  (previous ← bitcoin.get_previous_block run.ledger1;
   bitcoin.hash SHA256.digest repr_ascii run.ledger1 previous)
  = Ok "a8d704db6e98ee8cf7a4764104db4678b29cf82a5ea85e77f4ac2573b8970f94".
Proof. vm_compute. reflexivity. Qed.

(** bitcoin.py, under SHA-256: after [/new_transaction/a] the first block
    shows ['a'] under ['transactions'], while its ['transactions_hash'] still
    is the hash of [str([])] and not the hash of [str(['a'])]. *)
Lemma run_transactions_hash_stale :
  ∃ g : bitcoin.dict,
    bitcoin.chain run.ledger1 = [g] ∧
    bitcoin.transactions run.ledger1 g = Some ["a"] ∧
    g !! "transactions_hash"
    = Some (bitcoin.VStr (hexdigest (SHA256.digest "[]"))) ∧
    hexdigest (SHA256.digest (bitcoin.str_list repr_ascii ["a"]))
    ≠ hexdigest (SHA256.digest "[]").
Proof.
  eexists. split; [reflexivity|]. vm_compute.
  split; [reflexivity|]. split; [reflexivity|]. discriminate.
Qed.

(** blockchain.py, under SHA-256: the chain of [run.genesis] and
    [run.second] passes the validator. *)
Lemma run_valid :
  blockchain.is_chain_valid SHA256.digest dumps_sorted [run.genesis; run.second]
  = Ok true.
Proof. vm_compute. reflexivity. Qed.

(** bitcoin.py's validator accepts two linked blocks that carry a ['proof']. *)
Lemma run_valid_proved :
  bitcoin.is_chain_valid SHA256.digest repr_ascii run.ledger2
    [run.proved1; run.proved2] = Ok true.
Proof. vm_compute. reflexivity. Qed.

Lemma bitcoin_validate_mined_chain_raises_witness :
  bitcoin.is_chain_valid SHA256.digest repr_ascii run.ledger2
    (bitcoin.chain run.ledger2) = Raise (KeyError "proof").
Proof.
  apply bitcoin_validate_mined_chain_raises; [exact run_reachable2|].
  vm_compute. lia.
Defined.

Lemma bitcoin_sealed_blocks_share_pool_witness :
  ∃ g : bitcoin.dict,
    bitcoin.chain run.ledger0 = [g] ∧
    g ∈ bitcoin.chain run.ledger1 ∧
    bitcoin.transactions run.ledger0 g = Some [] ∧
    bitcoin.transactions run.ledger1 g = Some ["a"].
Proof.
  eexists. split; [reflexivity|].
  apply (bitcoin_sealed_blocks_share_pool SHA256.digest repr_ascii
           run.ledger0 _ "a").
  - apply bitcoin.reachable_init.
  - apply list_elem_of_here.
Defined.

Lemma bitcoin_pool_kept_after_mining_witness :
  bitcoin.pool run.ledger2 = ["a"] ∧
  run.block2 ∈ bitcoin.chain run.ledger2 ∧
  ∀ b : bitcoin.dict, b ∈ bitcoin.chain run.ledger2 →
    bitcoin.transactions run.ledger2 b = Some ["a"].
Proof.
  exact (bitcoin_pool_kept_after_mining SHA256.digest repr_ascii 3%nat run.t1
           run.ledger1 run.block2 run.ledger2 run_reachable1 run_mined).
Defined.

Lemma bitcoin_proof_of_work_least_nonce_witness :
  let template :=
    bitcoin.create_block SHA256.digest repr_ascii run.ledger1 run.t1 1
      "a8d704db6e98ee8cf7a4764104db4678b29cf82a5ea85e77f4ac2573b8970f94" in
  ∃ n, 1 ≤ n ∧ run.block2 = bitcoin.with_nonce template n ∧
       bitcoin.meets_target SHA256.digest repr_ascii run.ledger1
         bitcoin.target run.block2 ∧
       ∀ k, 1 ≤ k < n →
         ¬ bitcoin.meets_target SHA256.digest repr_ascii run.ledger1
             bitcoin.target (bitcoin.with_nonce template k).
Proof.
  intros template.
  destruct (bitcoin_proof_of_work_least_nonce SHA256.digest repr_ascii run.t1
              run.ledger1 _ run_previous_hash) as [Hsound _].
  exact (Hsound 3%nat run.block2 run.ledger2 run_mined).
Defined.

Lemma linkage_witness :
  ∃ g h, bitcoin.chain run.ledger2 = [g; run.block2] ∧
         bitcoin.hash SHA256.digest repr_ascii run.ledger2 g = Ok h ∧
         run.block2 !! "previous_hash" = Some (bitcoin.VStr h).
Proof.
  eexists.
  destruct (proj1 linkage SHA256.digest repr_ascii run.ledger2 0%nat _
              run.block2 run_reachable2 eq_refl eq_refl) as (h & Hh & Hp).
  exists h. split; [reflexivity|]. split; [exact Hh|exact Hp].
Defined.

Lemma tamper_detection_witness :
  blockchain.is_chain_valid SHA256.digest dumps_sorted
    [run.genesis; <["previous_hash" := blockchain.VStr "00"]> run.second]
  = Ok false ∧
  bitcoin.is_chain_valid SHA256.digest repr_ascii run.ledger2
    [run.proved1; <["previous_hash" := bitcoin.VStr "00"]> run.proved2]
  = Ok false.
Proof.
  split.
  - apply (proj1 tamper_detection SHA256.digest dumps_sorted run.genesis
             run.second [] _ "00" run_valid eq_refl).
    discriminate.
  - apply (proj2 tamper_detection SHA256.digest repr_ascii run.ledger2
             run.proved1 run.proved2 [] _ "00" run_valid_proved eq_refl).
    discriminate.
Defined.

Lemma proof_of_work_effect_witness :
  bitcoin.chain run.ledger2 = bitcoin.chain run.ledger1 ++ [run.block2] ∧
  bitcoin.heap run.ledger2 = bitcoin.heap run.ledger1 ∧
  bitcoin.current_transactions run.ledger2
  = bitcoin.current_transactions run.ledger1.
Proof.
  exact (proj1 proof_of_work_effect SHA256.digest repr_ascii 3%nat run.t1
           run.ledger1 run.block2 run.ledger2 run_mined).
Defined.

(** bitcoin.py: the index of the first block can be changed at will, the
    verdict on the chain is the same. *)
Lemma singleton_chain_valid_witness :
  bitcoin.is_chain_valid SHA256.digest repr_ascii run.ledger2
    [run.proved1; run.proved2]
  = bitcoin.is_chain_valid SHA256.digest repr_ascii run.ledger2
      [<["index" := bitcoin.VInt 7]> run.proved1; run.proved2].
Proof.
  apply (proj2 (proj2 (proj2 singleton_chain_valid)) SHA256.digest repr_ascii
           run.ledger2 run.proved1 (<["index" := bitcoin.VInt 7]> run.proved1)).
  - reflexivity.
  - reflexivity.
Defined.

(** C2, refuted as stated: under SHA-256, blockchain.py's validator accepts
    the chain of [run.genesis] and [run.second], whose proofs solve the
    puzzle, while the second block's own hash does not start with seven
    zeros, so that the validator of the specification turns the chain
    down. *)
Lemma is_chain_valid_differs_from_Validate_spec :
  blockchain.is_chain_valid SHA256.digest dumps_sorted [run.genesis; run.second]
  = Ok true ∧
  blockchain.Validate_spec SHA256.digest dumps_sorted [run.genesis; run.second]
  = Ok false.
Proof. split; vm_compute; reflexivity. Qed.

(** C4, refuted as stated: under SHA-256, bitcoin.py's [proof_of_work]
    returns on [run.ledger1] and leaves a chain of two blocks where there
    was one. *)
Lemma proof_of_work_mutates_chain :
  ∃ block self',
    bitcoin.proof_of_work SHA256.digest repr_ascii 3 run.t1 run.ledger1
    = Some (Ok (block, self')) ∧
    length (bitcoin.chain run.ledger1) = 1%nat ∧
    length (bitcoin.chain self') = 2%nat ∧
    bitcoin.chain self' ≠ bitcoin.chain run.ledger1.
Proof.
  exists run.block2, run.ledger2. split; [apply run_mined|].
  split; [reflexivity|]. split; [reflexivity|].
  intros Heq. apply (f_equal length) in Heq. discriminate.
Qed.

(** * Further properties of the code *)

(** ** ['%064x'] and [int(_, 16)] *)

Lemma int16_digits_uint (d : Hexadecimal.uint) (acc : Z) :
  int16_digits acc (NilEmpty.string_of_uint d) = Ok (uint_value d acc).
Proof.
  revert acc. induction d; intros acc; [reflexivity|..];
    cbn [NilEmpty.string_of_uint int16_digits uint_value];
    match goal with
    | |- context [hex_value ?c] =>
        let v := eval vm_compute in (hex_value c) in
        change (hex_value c) with v
    end;
    cbn beta iota; rewrite ?Z.add_0_r; apply IHd.
Qed.

Lemma of_hex_uint_acc_value (d : Hexadecimal.uint) (acc : positive) :
  Z.pos (Pos.of_hex_uint_acc d acc) = uint_value d (Z.pos acc).
Proof.
  revert acc. induction d; intros acc; cbn [Pos.of_hex_uint_acc uint_value];
    [reflexivity|rewrite IHd; f_equal; lia..].
Qed.

Lemma of_hex_uint_value (d : Hexadecimal.uint) :
  Z.of_N (Pos.of_hex_uint d) = uint_value d 0.
Proof.
  induction d; cbn [Pos.of_hex_uint uint_value]; try done;
    cbn [Z.of_N]; by rewrite of_hex_uint_acc_value.
Qed.

Lemma int16_digits_hex_of_N (n : N) :
  int16_digits 0 (hex_of_N n) = Ok (Z.of_N n).
Proof.
  unfold hex_of_N, NilZero.string_of_uint.
  rewrite <- (HexadecimalN.Unsigned.of_to n) at 2.
  unfold N.of_hex_uint. rewrite of_hex_uint_value.
  destruct (N.to_hex_uint n); [reflexivity|apply int16_digits_uint..].
Qed.

Lemma hex_of_N_nonempty (n : N) : hex_of_N n ≠ "".
Proof.
  unfold hex_of_N, NilZero.string_of_uint. by destruct (N.to_hex_uint n).
Qed.

Lemma int16_digits_zfill (width : nat) (s : string) :
  int16_digits 0 (zfill width s) = int16_digits 0 s.
Proof.
  unfold zfill. induction (width - String.length s)%nat as [|k IH];
    [reflexivity|exact IH].
Qed.

Lemma zfill_nonempty (width : nat) (s : string) : s ≠ "" → zfill width s ≠ "".
Proof.
  unfold zfill. destruct (width - String.length s)%nat; [done|]. by cbn.
Qed.

Lemma int16_of_digits (s : string) (v : Z) :
  s ≠ "" → int16_digits 0 s = Ok v → int16 s = Ok v.
Proof.
  destruct s as [|c s]; [done|]. intros _ Hv.
  rewrite int16_not_minus; [done|]. by intros ->.
Qed.

(** Rendering an integer with ['%064x'] and reading it back with
    [int(_, 16)] gives the integer, whatever its sign and its size. *)
Lemma int16_format_064x (n : Z) : int16 (format_064x n) = Ok n.
Proof.
  unfold format_064x. destruct (n <? 0) eqn:Hn.
  - apply Z.ltb_lt in Hn.
    pose proof (zfill_nonempty 63 _ (hex_of_N_nonempty (Z.to_N (- n)))) as Hne.
    pose proof (int16_digits_zfill 63 (hex_of_N (Z.to_N (- n)))) as Hd.
    rewrite int16_digits_hex_of_N in Hd.
    destruct (zfill 63 (hex_of_N (Z.to_N (- n)))) as [|c s]; [done|].
    change (int16 ("-" +:+ String c s))
      with (v ← int16_digits 0 (String c s); Ok (- v)).
    rewrite Hd. cbn. f_equal. lia.
  - apply Z.ltb_ge in Hn. apply int16_of_digits.
    + apply zfill_nonempty, hex_of_N_nonempty.
    + rewrite int16_digits_zfill, int16_digits_hex_of_N. f_equal. lia.
Qed.

(** ** Digests as numbers *)

Lemma be_value_bounds (bs : list byte) (acc : Z) :
  0 ≤ acc →
  acc * 256 ^ Z.of_nat (length bs) ≤ be_value bs acc
  < (acc + 1) * 256 ^ Z.of_nat (length bs).
Proof.
  revert acc. induction bs as [|b bs IH]; intros acc Hacc.
  - cbn. lia.
  - pose proof (Byte.to_N_bounded b) as Hb.
    specialize (IH (acc * 256 + Z.of_N (Byte.to_N b)) ltac:(lia)).
    change (be_value (b :: bs) acc)
      with (be_value bs (acc * 256 + Z.of_N (Byte.to_N b))).
    rewrite length_cons, Nat2Z.inj_succ, Z.pow_succ_r by lia.
    assert (0 < 256 ^ Z.of_nat (length bs)) by (apply Z.pow_pos_nonneg; lia).
    nia.
Qed.

Lemma digest_value_range (d : digest) : 0 ≤ digest_value d < 2 ^ 256.
Proof.
  pose proof (be_value_bounds (vec_to_list d) 0 ltac:(lia)) as H.
  rewrite length_vec_to_list in H. unfold digest_value.
  change (256 ^ Z.of_nat 32) with (2 ^ 256) in H. lia.
Qed.

Lemma byte_zero (b : byte) : Byte.to_N b = 0%N → b = x00.
Proof.
  intros Hb. pose proof (Byte.of_to_N b) as H. rewrite Hb in H.
  by injection H.
Qed.

(** A digest below [2 ^ 224] is rendered with eight leading zeros. *)
Lemma hexdigest_leading_zeros (d : digest) :
  digest_value d < 2 ^ 224 → String.substring 0 8 (hexdigest d) = "00000000".
Proof.
  unfold digest_value, hexdigest.
  pose proof (length_vec_to_list d) as Hlen.
  destruct (vec_to_list d) as [|b0 [|b1 [|b2 [|b3 l]]]]; try discriminate.
  unfold be_value at 1. cbn [fold_left]. intros Hlt.
  pose proof (Byte.to_N_bounded b0). pose proof (Byte.to_N_bounded b1).
  pose proof (Byte.to_N_bounded b2). pose proof (Byte.to_N_bounded b3).
  match type of Hlt with fold_left _ _ ?acc < _ =>
    pose proof (be_value_bounds l acc ltac:(lia)) as Hlow end.
  unfold be_value in Hlow.
  replace (length l) with 28%nat in Hlow by (cbn in Hlen; lia).
  change (256 ^ Z.of_nat 28) with (2 ^ 224) in Hlow.
  assert (Byte.to_N b0 = 0 ∧ Byte.to_N b1 = 0 ∧ Byte.to_N b2 = 0
          ∧ Byte.to_N b3 = 0)%N as (Hz0 & Hz1 & Hz2 & Hz3) by lia.
  apply byte_zero in Hz0, Hz1, Hz2, Hz3. subst.
  change (hex (x00 :: x00 :: x00 :: x00 :: l)) with ("00000000" +:+ hex l).
  generalize (hex l). intros s. cbn. by destruct s.
Qed.

(** ** bitcoin.py, further *)

Section bitcoin_further.

Import bitcoin.

Variable sha256 : string → digest.
Variable repr : string → string.

Local Abbreviation hash := (bitcoin.hash sha256 repr).
Local Abbreviation create_block := (bitcoin.create_block sha256 repr).
Local Abbreviation header_value := (bitcoin.header_value sha256 repr).
Local Abbreviation meets_target := (bitcoin.meets_target sha256 repr).
Local Abbreviation proof_of_work_loop := (bitcoin.proof_of_work_loop sha256 repr).
Local Abbreviation proof_of_work := (bitcoin.proof_of_work sha256 repr).
Local Abbreviation is_chain_valid := (bitcoin.is_chain_valid sha256 repr).
Local Abbreviation mine_block := (bitcoin.mine_block sha256 repr).
Local Abbreviation reachable := (bitcoin.reachable sha256 repr).

(** [calculate_target] decodes the compact form: the low 24 bits of [bits]
    times 256 to the power of its high bits minus 3; the passage through
    ['%064x'] and [int(_, 16)] changes nothing.  It raises [ValueError] (a
    negative shift count) when the high bits are below 3, and [TypeError]
    when [bits] is not an integer. *)
Theorem bitcoin_calculate_target_value :
  (∀ bits : Z,
     calculate_target (VInt bits)
     = if Z.shiftr bits 24 <? 3 then Raise ValueError
       else Ok (Z.land bits 16777215 * 256 ^ (Z.shiftr bits 24 - 3))) ∧
  (∀ s, calculate_target (VStr s) = Raise TypeError) ∧
  (∀ l, calculate_target (VList l) = Raise TypeError).
Proof.
  split; [|done]. intros bits. unfold calculate_target, lshift1.
  destruct (Z.shiftr bits 24 <? 3) eqn:Hexp.
  - apply Z.ltb_lt in Hexp.
    by replace (8 * (Z.shiftr bits 24 - 3) <? 0) with true by lia.
  - apply Z.ltb_ge in Hexp.
    replace (8 * (Z.shiftr bits 24 - 3) <? 0) with false by lia.
    cbn [mbind res_bind]. rewrite int16_format_064x, Z.shiftl_1_l.
    do 2 f_equal. change 256 with (2 ^ 8). rewrite <- Z.pow_mul_r by lia.
    done.
Qed.

(** [hash] returns the rendering of a digest when the block has the four
    keys it reads, and otherwise raises [KeyError] for one of them that the
    block lacks; the number the search compares with the target is then
    defined and below [2 ^ 256]: [int(_, 16)] never raises there. *)
Theorem bitcoin_hash_defined self (block : dict) :
  (∃ d : digest, hash self block = Ok (hexdigest d) ∧
                 header_value self block = Ok (digest_value d) ∧
                 0 ≤ digest_value d < 2 ^ 256) ∨
  (∃ key, key ∈ ["timestamp"; "previous_hash"; "transactions_hash"; "nonce"] ∧
          block !! key = None ∧
          hash self block = Raise (KeyError key) ∧
          header_value self block = Raise (KeyError key)).
Proof.
  unfold bitcoin.header_value, bitcoin.hash, getitem.
  destruct (block !! "timestamp") as [ts|] eqn:Hts;
    [|right; exists "timestamp"; repeat split; [set_solver|done]].
  destruct (block !! "previous_hash") as [ph|] eqn:Hph;
    [|right; exists "previous_hash"; repeat split; [set_solver|done]].
  destruct (block !! "transactions_hash") as [th|] eqn:Hth;
    [|right; exists "transactions_hash"; repeat split; [set_solver|done]].
  destruct (block !! "nonce") as [n|] eqn:Hn;
    [|right; exists "nonce"; repeat split; [set_solver|done]].
  left. cbn [mbind res_bind]. eexists. split; [reflexivity|].
  split; [apply int16_hexdigest|apply digest_value_range].
Qed.

(** [hash] covers the timestamp, the previous hash, the hash of the
    transactions and the nonce, and nothing else: setting or removing any
    other key of a block (['index'], ['nbits'], ['transactions'], ...)
    leaves its hash as it was. *)
Theorem bitcoin_hash_ignores_other_keys self (block : dict) key v :
  key ∉ ["timestamp"; "previous_hash"; "transactions_hash"; "nonce"] →
  hash self (<[key := v]> block) = hash self block ∧
  hash self (delete key block) = hash self block.
Proof.
  intros Hkey. unfold bitcoin.hash, getitem.
  rewrite !lookup_insert_ne, !lookup_delete_ne by set_solver. done.
Qed.

(** The hash of a block of the chain is defined and does not move: it is the
    same after any later submission and after any later mined block (while
    the list the block shows under ['transactions'] does change). *)
Theorem bitcoin_hash_stable self (block : dict) :
  reachable self →
  block ∈ chain self →
  ∃ h, hash self block = Ok h ∧
       (∀ tr_str, hash (new_transaction tr_str self) block = Ok h) ∧
       (∀ fuel now b self',
          proof_of_work fuel now self = Some (Ok (b, self')) →
          hash self' block = Ok h).
Proof.
  intros Hr%bitcoin_reachable_ledger_inv Hb.
  pose proof (inv_sealed _ _ _ Hr) as Hsealed.
  rewrite Forall_forall in Hsealed.
  destruct (hash_sealed sha256 repr _ _ (Hsealed _ Hb))
    as (ts & ph & th & n & _ & _ & _ & _ & _ & _ & Hhash).
  eexists. split; [apply Hhash|]. split; intros; apply Hhash.
Qed.

Lemma proof_of_work_never_raises fuel now self h e :
  (previous ← get_previous_block self; hash self previous) = Ok h →
  proof_of_work fuel now self ≠ Some (Raise e).
Proof.
  intros Hprev. unfold bitcoin.proof_of_work. rewrite Hprev.
  change (getitem (create_block self now 1 h) "nbits")
    with (Ok (VInt 486604799) : res val).
  cbn [mbind res_bind]. rewrite calculate_target_nbits.
  destruct (proof_of_work_loop fuel self target (create_block self now 1 h))
    as [[b|e']|] eqn:Hloop; try done.
  by apply proof_of_work_loop_no_raise
    with (l := current_transactions self) in Hloop;
    [|apply create_block_sealed].
Qed.

(** On a ledger of a process, [get_previous_block] finds a block, and
    neither [proof_of_work] nor the route [mine_block] raises: they return,
    or the search is still running. *)
Theorem bitcoin_mining_never_raises self :
  reachable self →
  (∃ previous, get_previous_block self = Ok previous ∧
               last (chain self) = Some previous) ∧
  ∀ fuel now e,
    proof_of_work fuel now self ≠ Some (Raise e) ∧
    mine_block fuel now self ≠ Some (Raise e).
Proof.
  intros Hr%bitcoin_reachable_ledger_inv.
  pose proof (inv_sealed _ _ _ Hr) as Hsealed.
  destruct (last (chain self)) as [previous|] eqn:Hlast;
    [|apply last_None in Hlast; by destruct (inv_first _ _ _ Hr)].
  assert (Hp : previous ∈ chain self).
  { rewrite last_lookup in Hlast. by eapply list_elem_of_lookup_2. }
  rewrite Forall_forall in Hsealed.
  destruct (hash_sealed sha256 repr _ _ (Hsealed _ Hp))
    as (ts & ph & th & n & _ & _ & _ & _ & _ & _ & Hhash).
  assert (Hprev : (previous ← get_previous_block self; hash self previous)
                  = Ok (hexdigest (sha256 (ts +:+ ph +:+ th +:+ pretty n)))).
  { unfold get_previous_block. rewrite Hlast. apply Hhash. }
  split; [unfold get_previous_block; rewrite Hlast; eauto|].
  intros fuel now e.
  pose proof (proof_of_work_never_raises fuel now self _ e Hprev) as Hpow.
  split; [done|]. unfold bitcoin.mine_block.
  destruct (proof_of_work fuel now self) as [[[block self']|e']|] eqn:Hrun;
    [|by intros [= ->]|done].
  apply proof_of_work_returns in Hrun as (? & ? & ? & _ & _ & _ & -> & _).
  done.
Qed.


(** What a mined block holds: the next index, the time of the call, the
    fixed [nbits], the hash of the block that was last, the pool, the digest
    of [str] of the pool as it is at that time, and a nonce from 1 on; and it
    is the block that [get_previous_block] returns afterwards. *)
Theorem bitcoin_mined_block_fields fuel now self (block : dict) self' :
  proof_of_work fuel now self = Some (Ok (block, self')) →
  block !! "index" = Some (VInt (Z.of_nat (length (chain self)) + 1)) ∧
  block !! "timestamp" = Some (VStr now) ∧
  block !! "nbits" = Some (VInt 486604799) ∧
  (∃ n, 1 ≤ n ∧ block !! "nonce" = Some (VInt n)) ∧
  (∃ previous h, last (chain self) = Some previous ∧
                 hash self previous = Ok h ∧
                 block !! "previous_hash" = Some (VStr h)) ∧
  block !! "transactions" = Some (VList (current_transactions self)) ∧
  block !! "transactions_hash"
  = Some (VStr (hexdigest (sha256 (str_list repr (pool self))))) ∧
  length (chain self') = S (length (chain self)) ∧
  get_previous_block self' = Ok block.
Proof.
  intros (previous & h & n & Hlast & Hh & Hn & -> & _ & _ & ->)%proof_of_work_returns.
  repeat split; try done.
  - by exists n.
  - by exists previous, h.
  - cbn. rewrite length_app. cbn. lia.
  - unfold get_previous_block. cbn. by rewrite last_snoc.
Qed.

(** The hash of a mined block starts with eight zeros (the docstring of
    [proof_of_work] speaks of four): its value is below the target, which is
    below [2 ^ 224]. *)
Theorem bitcoin_mined_hash_eight_zeros fuel now self (block : dict) self' :
  proof_of_work fuel now self = Some (Ok (block, self')) →
  ∃ h, hash self' block = Ok h ∧ String.substring 0 8 h = "00000000".
Proof.
  intros (previous & h & n & _ & _ & _ & -> & Hmeet & _ & ->)%proof_of_work_returns.
  destruct Hmeet as (v & Hv & Hlt).
  destruct (hash_sealed sha256 repr _ _ (create_block_sealed sha256 repr self now n h))
    as (ts & ph & th & m & _ & _ & _ & _ & _ & _ & Hhash).
  unfold bitcoin.header_value in Hv. rewrite Hhash in *. cbn in Hv.
  rewrite int16_hexdigest in Hv. injection Hv as <-.
  eexists. split; [reflexivity|]. apply hexdigest_leading_zeros.
  unfold target in Hlt. lia.
Qed.

(** On the chain of a ledger that holds a mined block, a changed
    [previous_hash] in the second block is reported: the verdict is [False],
    reached before the validator looks for ['proof']. *)
Theorem bitcoin_tampered_mined_chain_rejected self (g b1 : dict) rest s :
  reachable self →
  chain self = g :: b1 :: rest →
  b1 !! "previous_hash" ≠ Some (VStr s) →
  ∀ rest',
    is_chain_valid self (g :: <["previous_hash" := VStr s]> b1 :: rest')
    = Ok false.
Proof.
  intros Hr%bitcoin_reachable_ledger_inv Hc Hs rest'.
  destruct (inv_linked _ _ _ Hr 0%nat g b1) as (h & Hh & Hph);
    [by rewrite Hc..|].
  cbn [bitcoin.is_chain_valid bitcoin.is_chain_valid_loop].
  unfold getitem. rewrite lookup_insert_eq. cbn [mbind res_bind].
  rewrite Hh. cbn [mbind res_bind]. rewrite decide_True; [done|].
  intros Heq. injection Heq as ->. by rewrite Hph in Hs.
Qed.

Lemma proof_of_work_loop_rounds fuel self tgt (block block' : dict) n m :
  block !! "nonce" = Some (VInt n) →
  block' !! "nonce" = Some (VInt m) →
  proof_of_work_loop fuel self tgt block = Some (Ok block') →
  ∀ fuel',
    proof_of_work_loop fuel' self tgt block
    = if decide (m - n < Z.of_nat fuel') then Some (Ok block') else None.
Proof.
  revert block n. induction fuel as [|fuel IH]; intros block n Hn Hm Hrun;
    [discriminate|].
  pose proof (proof_of_work_loop_sound sha256 repr _ _ _ _ _ _ Hn Hrun)
    as (m' & Hle & Hb' & _).
  assert (m' = m) as ->.
  { rewrite Hb' in Hm. unfold with_nonce in Hm.
    rewrite lookup_insert_eq in Hm. by injection Hm. }
  cbn [bitcoin.proof_of_work_loop] in Hrun.
  intros [|fuel']; [by rewrite decide_False by lia|].
  cbn [bitcoin.proof_of_work_loop].
  destruct (hash_operation ← hash self block; int16 hash_operation)
    as [v|]; [|discriminate].
  destruct (v <? tgt).
  - injection Hrun as <-. rewrite Hn in Hm. injection Hm as <-.
    by rewrite decide_True by lia.
  - unfold incr_nonce, getitem in *. rewrite Hn in *. cbn in *.
    rewrite (IH _ (n + 1)); [|apply lookup_insert_eq|done..].
    destruct (decide (m - (n + 1) < Z.of_nat fuel'));
      [by rewrite decide_True by lia|by rewrite decide_False by lia].
Qed.

(** The search costs as many rounds as the nonce it finds: if [proof_of_work]
    returns a block with nonce [n], it returns that block in every run of at
    least [n] rounds and is still searching in every shorter one. *)
Theorem bitcoin_search_rounds fuel now self (block : dict) self' :
  proof_of_work fuel now self = Some (Ok (block, self')) →
  ∃ n, block !! "nonce" = Some (VInt n) ∧ 1 ≤ n ∧
       ∀ fuel',
         proof_of_work fuel' now self
         = if decide (n ≤ Z.of_nat fuel') then Some (Ok (block, self'))
           else None.
Proof.
  intros Hrun.
  destruct (proof_of_work_returns sha256 repr _ _ _ _ _ Hrun)
    as (previous & h & n & Hlast & Hh & Hn & -> & _ & _ & ->).
  exists n. split; [reflexivity|]. split; [done|]. intros fuel'.
  unfold bitcoin.proof_of_work, get_previous_block in *.
  rewrite Hlast in *. cbn [mbind res_bind] in *. rewrite Hh in *.
  change (getitem (create_block self now 1 h) "nbits")
    with (Ok (VInt 486604799) : res val) in *.
  cbn [mbind res_bind] in *. rewrite calculate_target_nbits in *.
  destruct (proof_of_work_loop fuel self target (create_block self now 1 h))
    as [[b|]|] eqn:Hloop; try discriminate.
  injection Hrun as Hb _. subst b.
  rewrite (proof_of_work_loop_rounds fuel self target
             (create_block self now 1 h) (create_block self now n h) 1 n
             eq_refl eq_refl Hloop).
  destruct (decide (n - 1 < Z.of_nat fuel'));
    [by rewrite decide_True by lia|by rewrite decide_False by lia].
Qed.

(** Submissions are kept in the order they come, none is lost and the chain
    is not touched: after the records [trs] the pool is the pool before
    followed by [trs]. *)
Theorem bitcoin_submissions_append self (trs : list string) :
  let self' := foldl (λ s tr_str, new_transaction tr_str s) self trs in
  pool self' = pool self ++ trs ∧
  chain self' = chain self ∧
  current_transactions self' = current_transactions self.
Proof.
  revert self. induction trs as [|tr trs IH]; intros self; cbn.
  - by rewrite app_nil_r.
  - destruct (IH (new_transaction tr self)) as (Hp & Hc & Hct).
    rewrite Hp, Hc, Hct. split; [|done].
    unfold pool, deref at 1. cbn. rewrite lookup_insert_eq. cbn.
    by rewrite <- app_assoc.
Qed.

End bitcoin_further.

(** ** blockchain.py, further *)

Section blockchain_further.

Import blockchain.

Variable sha256 : string → digest.
Variable json_dumps : dict → string.

Local Abbreviation hash := (blockchain.hash sha256 json_dumps).
Local Abbreviation solves := (blockchain.solves sha256).
Local Abbreviation linked := (blockchain.linked sha256 json_dumps).
Local Abbreviation proved := (blockchain.proved sha256).
Local Abbreviation proof_of_work_loop := (blockchain.proof_of_work_loop sha256).
Local Abbreviation proof_of_work := (blockchain.proof_of_work sha256).
Local Abbreviation is_chain_valid_loop :=
  (blockchain.is_chain_valid_loop sha256 json_dumps).
Local Abbreviation is_chain_valid := (blockchain.is_chain_valid sha256 json_dumps).
Local Abbreviation mine_block := (blockchain.mine_block sha256 json_dumps).
Local Abbreviation reachable := (blockchain.reachable sha256 json_dumps).

Lemma blockchain_loop_no_raise fuel p n e :
  proof_of_work_loop fuel (VInt p) n ≠ Some (Raise e).
Proof.
  revert n. induction fuel as [|fuel IH]; intros n; [done|].
  cbn [blockchain.proof_of_work_loop pow2]. by case_decide.
Qed.

Lemma blockchain_loop_rounds fuel p n m :
  proof_of_work_loop fuel (VInt p) n = Some (Ok m) →
  ∀ fuel',
    proof_of_work_loop fuel' (VInt p) n
    = if decide (m - n < Z.of_nat fuel') then Some (Ok m) else None.
Proof.
  revert n. induction fuel as [|fuel IH]; intros n Hrun; [discriminate|].
  pose proof (blockchain_loop_sound sha256 _ _ _ _ Hrun) as (_ & _ & Hle & _).
  cbn [blockchain.proof_of_work_loop pow2] in Hrun.
  intros [|fuel']; [by rewrite decide_False by lia|].
  cbn [blockchain.proof_of_work_loop pow2]. case_decide.
  - injection Hrun as <-. by rewrite decide_True by lia.
  - rewrite (IH _ Hrun).
    destruct (decide (m - (n + 1) < Z.of_nat fuel'));
      [by rewrite decide_True by lia|by rewrite decide_False by lia].
Qed.

(** The search of blockchain.py: on a text as previous proof it raises
    [TypeError] in its first round; on an integer it never raises; and it
    costs as many rounds as the proof it finds: if it returns [m], it returns
    [m] in every run of at least [m] rounds and is still searching in every
    shorter one. *)
Theorem blockchain_proof_of_work_rounds :
  (∀ fuel s, proof_of_work (S fuel) (VStr s) = Some (Raise TypeError)) ∧
  (∀ fuel p e, proof_of_work fuel (VInt p) ≠ Some (Raise e)) ∧
  (∀ fuel p m,
     proof_of_work fuel (VInt p) = Some (Ok m) →
     1 ≤ m ∧
     ∀ fuel',
       proof_of_work fuel' (VInt p)
       = if decide (m ≤ Z.of_nat fuel') then Some (Ok m) else None).
Proof.
  split; [done|]. split; [intros; apply blockchain_loop_no_raise|].
  intros fuel p m Hrun. unfold blockchain.proof_of_work in *.
  pose proof (blockchain_loop_sound sha256 _ _ _ _ Hrun) as (_ & _ & Hle & _).
  split; [done|]. intros fuel'. rewrite (blockchain_loop_rounds _ _ _ _ Hrun).
  destruct (decide (m - 1 < Z.of_nat fuel'));
    [by rewrite decide_True by lia|by rewrite decide_False by lia].
Qed.

(** On a ledger of a process the route [mine_block] never raises: the last
    block exists and carries an integer proof. *)
Theorem blockchain_mine_block_never_raises self :
  reachable self →
  ∀ fuel now e, mine_block fuel now self ≠ Some (Raise e).
Proof.
  intros [Hfirst Hproof _ _]%blockchain_reachable_ledger_inv fuel now e.
  unfold blockchain.mine_block, get_previous_block, getitem.
  destruct (last (chain self)) as [previous|] eqn:Hlast;
    [|by apply last_None in Hlast].
  rewrite Forall_forall in Hproof.
  destruct (Hproof previous) as [p Hp].
  { rewrite last_lookup in Hlast. by eapply list_elem_of_lookup_2. }
  cbn [mbind res_bind]. rewrite Hp. cbn [mbind res_bind].
  destruct (proof_of_work fuel (VInt p)) as [[m|e']|] eqn:Hpow; try done.
  by apply blockchain_loop_no_raise in Hpow.
Qed.

(** What the route [mine_block] appends: a block with the next index, the
    time of the call, the hash of the block that was last, and a proof from 1
    on that solves the puzzle against the proof of that block; it is the
    block that [get_previous_block] returns afterwards. *)
Theorem blockchain_mined_block_fields fuel now self (block : dict) self' :
  mine_block fuel now self = Some (Ok (block, self')) →
  dom block = {["index"; "timestamp"; "proof"; "previous_hash"]} ∧
  block !! "index" = Some (VInt (Z.of_nat (length (chain self)) + 1)) ∧
  block !! "timestamp" = Some (VStr now) ∧
  (∃ previous p m,
     last (chain self) = Some previous ∧
     previous !! "proof" = Some (VInt p) ∧
     block !! "previous_hash" = Some (VStr (hash previous)) ∧
     block !! "proof" = Some (VInt m) ∧ 1 ≤ m ∧ solves m p) ∧
  chain self' = chain self ++ [block] ∧
  get_previous_block self' = Ok block.
Proof.
  intros Hrun.
  destruct (mine_block_returns sha256 json_dumps _ _ _ _ _ Hrun)
    as (previous & p & m & Hlast & Hp & Hpow & -> & ->).
  apply blockchain_loop_sound in Hpow as (p' & Hp' & Hm & Hsolved & _).
  injection Hp' as <-.
  split; [by rewrite !dom_insert_L, dom_singleton_L; set_solver|].
  repeat split; try done.
  - by exists previous, p, m.
  - unfold get_previous_block. cbn. by rewrite last_snoc.
Qed.

(** The validator does not protect the last block beyond its link and its
    proof: setting any other key of it (['index'], ['timestamp'], ...) to
    any value leaves the verdict as it was. *)
Theorem blockchain_last_block_unprotected (g : dict) (rest : list dict)
    (last_block : dict) key v :
  key ≠ "previous_hash" → key ≠ "proof" →
  is_chain_valid (g :: rest ++ [<[key := v]> last_block])
  = is_chain_valid (g :: rest ++ [last_block]).
Proof.
  intros Hk1 Hk2. cbn [blockchain.is_chain_valid]. revert g.
  induction rest as [|b rest IH]; intros g;
    cbn [app blockchain.is_chain_valid_loop].
  - unfold getitem. by rewrite !lookup_insert_ne.
  - by rewrite IH.
Qed.

(** A block that has a successor is protected by the link of that
    successor: if a chain is accepted and such a block is replaced by one
    with another hash, the chain is no longer accepted. *)
Theorem blockchain_changed_block_detected (chain : list dict) (i : nat)
    (block next block' : dict) :
  is_chain_valid chain = Ok true →
  chain !! i = Some block →
  chain !! S i = Some next →
  hash block' ≠ hash block →
  is_chain_valid (<[i := block']> chain) ≠ Ok true.
Proof.
  intros Hvalid Hb Hn Hhash Hvalid'.
  assert (Hi : (i < length chain)%nat) by by eapply lookup_lt_Some.
  assert (Hlink : next !! "previous_hash" = Some (VStr (hash block))).
  { destruct chain as [|g rest]; [done|].
    by destruct (proj1 (is_chain_valid_true_iff sha256 json_dumps g rest)
                   Hvalid i block next). }
  assert (Hlink' : next !! "previous_hash" = Some (VStr (hash block'))).
  { destruct (<[i := block']> chain) as [|g' rest'] eqn:Hc; [done|].
    destruct (proj1 (is_chain_valid_true_iff sha256 json_dumps g' rest')
                Hvalid' i block' next); [| |done].
    - by rewrite <- Hc, list_lookup_insert_eq.
    - change (rest' !! i) with ((g' :: rest') !! S i).
      by rewrite <- Hc, list_lookup_insert_ne by lia. }
  congruence.
Qed.

(** The validator returns a verdict, and raises nothing, on every non-empty
    chain whose blocks all carry a ['previous_hash'] and an integer
    ['proof']; on the empty chain it raises [IndexError]. *)
Theorem blockchain_is_chain_valid_total (chain : list dict) :
  Forall (λ block : dict,
            is_Some (block !! "previous_hash") ∧
            ∃ p : Z, block !! "proof" = Some (VInt p)) chain →
  match chain with
  | [] => is_chain_valid chain = Raise IndexError
  | _ => ∃ verdict, is_chain_valid chain = Ok verdict
  end.
Proof.
  destruct chain as [|g rest]; [done|]. cbn [blockchain.is_chain_valid].
  revert g. induction rest as [|b rest IH]; intros g Hall; [by eexists|].
  apply Forall_cons in Hall as [[_ [p Hp]] Hrest].
  pose proof Hrest as [[[v Hv] [c Hc]] _]%Forall_cons.
  cbn [blockchain.is_chain_valid_loop]. unfold getitem.
  rewrite Hv, Hp, Hc. cbn [mbind res_bind pow2].
  case_decide; [by eexists|]. case_decide; [by eexists|]. by apply IH.
Qed.

End blockchain_further.

(** ** Both variants, further *)

(** Blocks are numbered by their position: in the chain of every ledger of
    a process the block at position [i] (from 0) has index [i + 1], so that
    the length [get_chain] reports is the index of the last block. *)
Theorem chain_indices :
  (∀ sha256 repr self,
     bitcoin.reachable sha256 repr self →
     (∀ (i : nat) (block : bitcoin.dict),
        bitcoin.chain self !! i = Some block →
        block !! "index" = Some (bitcoin.VInt (Z.of_nat i + 1))) ∧
     ∃ last_block : bitcoin.dict,
       last (bitcoin.get_chain self).1 = Some last_block ∧
       last_block !! "index" = Some (bitcoin.VInt (bitcoin.get_chain self).2)) ∧
  (∀ sha256 json_dumps self,
     blockchain.reachable sha256 json_dumps self →
     (∀ (i : nat) (block : blockchain.dict),
        blockchain.chain self !! i = Some block →
        block !! "index" = Some (blockchain.VInt (Z.of_nat i + 1))) ∧
     ∃ last_block : blockchain.dict,
       last (blockchain.get_chain self).1 = Some last_block ∧
       last_block !! "index"
       = Some (blockchain.VInt (blockchain.get_chain self).2)).
Proof.
  split.
  - intros sha256 repr self [_ Hfirst _ Hindex _]%bitcoin_reachable_ledger_inv.
    split; [done|]. cbn.
    destruct (last (bitcoin.chain self)) as [b|] eqn:Hlast;
      [|by apply last_None in Hlast].
    exists b. split; [done|]. rewrite last_lookup in Hlast.
    rewrite (Hindex _ _ Hlast). do 2 f_equal.
    destruct (bitcoin.chain self); [done|cbn; lia].
  - intros sha256 json_dumps self
      [Hfirst _ Hindex _]%blockchain_reachable_ledger_inv.
    split; [done|]. cbn.
    destruct (last (blockchain.chain self)) as [b|] eqn:Hlast;
      [|by apply last_None in Hlast].
    exists b. split; [done|]. rewrite last_lookup in Hlast.
    rewrite (Hindex _ _ Hlast). do 2 f_equal.
    destruct (blockchain.chain self); [done|cbn; lia].
Qed.

(** ** The further properties on the concrete ledgers *)


Lemma further_mined :
  blockchain.mine_block SHA256.digest dumps_sorted 3 run.t1 further.ledger
  = Some (Ok (further.mined,
              {| blockchain.chain := [further.first; further.mined] |})).
Proof. vm_compute. reflexivity. Qed.

Lemma bitcoin_hash_ignores_other_keys_witness :
  bitcoin.hash SHA256.digest repr_ascii run.ledger2
    (<["index" := bitcoin.VInt 7]> run.block2)
  = bitcoin.hash SHA256.digest repr_ascii run.ledger2 run.block2 ∧
  bitcoin.hash SHA256.digest repr_ascii run.ledger2
    (delete "index" run.block2)
  = bitcoin.hash SHA256.digest repr_ascii run.ledger2 run.block2.
Proof.
  apply bitcoin_hash_ignores_other_keys. intros H.
  repeat (apply elem_of_cons in H as [H|H]; [discriminate|]).
  by apply elem_of_nil in H.
Defined.

Lemma bitcoin_hash_stable_witness :
  ∃ g h, bitcoin.chain run.ledger1 = [g] ∧
    bitcoin.hash SHA256.digest repr_ascii run.ledger1 g = Ok h ∧
    (∀ tr_str,
       bitcoin.hash SHA256.digest repr_ascii
         (bitcoin.new_transaction tr_str run.ledger1) g = Ok h) ∧
    (∀ fuel now b self',
       bitcoin.proof_of_work SHA256.digest repr_ascii fuel now run.ledger1
       = Some (Ok (b, self')) →
       bitcoin.hash SHA256.digest repr_ascii self' g = Ok h).
Proof.
  eexists.
  destruct (bitcoin_hash_stable SHA256.digest repr_ascii run.ledger1 _
              run_reachable1 (list_elem_of_here _ _)) as (h & H).
  exists h. split; [reflexivity|exact H].
Defined.

Lemma bitcoin_mining_never_raises_witness :
  (∃ previous,
     bitcoin.get_previous_block run.ledger1 = Ok previous ∧
     last (bitcoin.chain run.ledger1) = Some previous) ∧
  ∀ fuel now e,
    bitcoin.proof_of_work SHA256.digest repr_ascii fuel now run.ledger1
    ≠ Some (Raise e) ∧
    bitcoin.mine_block SHA256.digest repr_ascii fuel now run.ledger1
    ≠ Some (Raise e).
Proof.
  exact (bitcoin_mining_never_raises SHA256.digest repr_ascii run.ledger1
           run_reachable1).
Defined.

Lemma bitcoin_mined_block_fields_witness :
  run.block2 !! "index" = Some (bitcoin.VInt 2) ∧
  run.block2 !! "timestamp" = Some (bitcoin.VStr run.t1) ∧
  bitcoin.get_previous_block run.ledger2 = Ok run.block2.
Proof.
  destruct (bitcoin_mined_block_fields SHA256.digest repr_ascii 3%nat run.t1
              run.ledger1 run.block2 run.ledger2 run_mined)
    as (Hi & Ht & _ & _ & _ & _ & _ & _ & Hp).
  split; [exact Hi|]. split; [exact Ht|exact Hp].
Defined.


Lemma bitcoin_mined_hash_eight_zeros_witness :
  ∃ h, bitcoin.hash SHA256.digest repr_ascii run.ledger2 run.block2 = Ok h ∧
       String.substring 0 8 h = "00000000".
Proof.
  exact (bitcoin_mined_hash_eight_zeros SHA256.digest repr_ascii 3%nat run.t1
           run.ledger1 run.block2 run.ledger2 run_mined).
Defined.

Lemma bitcoin_tampered_mined_chain_rejected_witness :
  ∃ g, bitcoin.chain run.ledger2 = [g; run.block2] ∧
    bitcoin.is_chain_valid SHA256.digest repr_ascii run.ledger2
      [g; <["previous_hash" := bitcoin.VStr "00"]> run.block2]
    = Ok false.
Proof.
  eexists. split; [reflexivity|].
  apply (bitcoin_tampered_mined_chain_rejected SHA256.digest repr_ascii
           run.ledger2 _ run.block2 [] "00" run_reachable2 eq_refl).
  discriminate.
Defined.

Lemma bitcoin_search_rounds_witness :
  ∃ n, run.block2 !! "nonce" = Some (bitcoin.VInt n) ∧ 1 ≤ n ∧
       ∀ fuel',
         bitcoin.proof_of_work SHA256.digest repr_ascii fuel' run.t1 run.ledger1
         = if decide (n ≤ Z.of_nat fuel')
           then Some (Ok (run.block2, run.ledger2)) else None.
Proof.
  exact (bitcoin_search_rounds SHA256.digest repr_ascii 3%nat run.t1
           run.ledger1 run.block2 run.ledger2 run_mined).
Defined.

Lemma blockchain_mine_block_never_raises_witness :
  blockchain.mine_block SHA256.digest dumps_sorted 5 run.t1
    (blockchain.init run.t0) ≠ Some (Raise TypeError).
Proof.
  apply blockchain_mine_block_never_raises, blockchain.reachable_init.
Defined.

Lemma blockchain_mined_block_fields_witness :
  further.mined !! "index" = Some (blockchain.VInt 2) ∧
  further.mined !! "proof" = Some (blockchain.VInt 3) ∧
  blockchain.solves SHA256.digest 3 184998985.
Proof.
  destruct (blockchain_mined_block_fields SHA256.digest dumps_sorted 3%nat
              run.t1 further.ledger further.mined _ further_mined)
    as (_ & Hi & _ & (previous & p & m & Hlast & Hp & _ & Hm & _ & Hs) & _).
  injection Hlast as <-. injection Hp as <-. injection Hm as <-.
  split; [exact Hi|]. split; [reflexivity|exact Hs].
Defined.

Lemma blockchain_last_block_unprotected_witness :
  blockchain.is_chain_valid SHA256.digest dumps_sorted
    [run.genesis; <["timestamp" := blockchain.VStr "1970-01-01"]> run.second]
  = blockchain.is_chain_valid SHA256.digest dumps_sorted
      [run.genesis; run.second].
Proof.
  apply (blockchain_last_block_unprotected SHA256.digest dumps_sorted
           run.genesis [] run.second "timestamp");
    discriminate.
Defined.

Lemma blockchain_changed_block_detected_witness :
  blockchain.is_chain_valid SHA256.digest dumps_sorted
    [<["timestamp" := blockchain.VStr "1970-01-01"]> run.genesis; run.second]
  ≠ Ok true.
Proof.
  apply (blockchain_changed_block_detected SHA256.digest dumps_sorted
           [run.genesis; run.second] 0%nat run.genesis run.second
           (<["timestamp" := blockchain.VStr "1970-01-01"]> run.genesis)
           run_valid eq_refl eq_refl).
  vm_compute. discriminate.
Defined.

Lemma blockchain_is_chain_valid_total_witness :
  ∃ verdict,
    blockchain.is_chain_valid SHA256.digest dumps_sorted
      [run.genesis; run.second] = Ok verdict.
Proof.
  apply (blockchain_is_chain_valid_total SHA256.digest dumps_sorted
           [run.genesis; run.second]).
  repeat constructor; by eexists.
Defined.

